(** * transcribe.py: a shallow embedding and its verified properties

    The program walks a folder, uploads every audio/video file to a
    speech-to-text HTTP API, formats the JSON answer and writes it next to the
    source file.  The embedding follows [transcribe.py] function by function:

    - Python values and the primitives the program calls live in [Py];
    - the part of [pathlib] the program uses lives in [Pathlib];
    - [find_audio_files], [transcribe_file], [format_transcript],
      [save_transcription] and [main] keep their names.

    Python exceptions are explicit: a computation that may raise returns a
    [res], and a statement placed outside [try] lets its exception escape. *)

From Stdlib Require Import ZArith String Ascii List Bool Lia DecimalString.
From stdpp Require Import base strings gmap list.

(** ** Python values and primitives *)

Module Py.

(** A Python [str] is a sequence of code points; the characters of a Rocq
    [string] stand for the code points U+0000..U+00FF. *)

Definition code (c : ascii) : N := N_of_ascii c.

(** [str.isspace] of one character: TAB..CR, FS..US and SPACE, NEL, NBSP. *)
Definition isspace (c : ascii) : bool :=
  let n := code c in
  ((9 <=? n) && (n <=? 13) || (28 <=? n) && (n <=? 32)
   || (n =? 133) || (n =? 160))%N.

(** [s.lstrip()] and [s.rstrip()] without argument. *)
Fixpoint lstrip (s : string) : string :=
  match s with
  | String c s' => if isspace c then lstrip s' else s
  | EmptyString => EmptyString
  end.

Fixpoint rstrip (s : string) : string :=
  match s with
  | String c s' =>
      match rstrip s' with
      | EmptyString => if isspace c then EmptyString else String c EmptyString
      | r => String c r
      end
  | EmptyString => EmptyString
  end.

Definition strip (s : string) : string := rstrip (lstrip s).

(** [s.lstrip(chars)] for a one-character [chars]. *)
Fixpoint lstrip_char (ch : ascii) (s : string) : string :=
  match s with
  | String c s' => if Ascii.eqb c ch then lstrip_char ch s' else s
  | EmptyString => EmptyString
  end.

(** [s.lower()]: A..Z and the Latin-1 capitals move up by 32. *)
Definition lower_char (c : ascii) : ascii :=
  let n := code c in
  if ((65 <=? n) && (n <=? 90)
      || (192 <=? n) && (n <=? 222) && negb (n =? 215))%N
  then ascii_of_N (n + 32) else c.

Fixpoint lower (s : string) : string :=
  match s with
  | String c s' => String (lower_char c) (lower s')
  | EmptyString => EmptyString
  end.

(** [s.upper()], exact on ASCII strings; the program applies it to the
    constants of [SUPPORTED_EXTENSIONS] only. *)
Definition upper_char (c : ascii) : ascii :=
  let n := code c in
  if ((97 <=? n) && (n <=? 122))%N then ascii_of_N (n - 32) else c.

Fixpoint upper (s : string) : string :=
  match s with
  | String c s' => String (upper_char c) (upper s')
  | EmptyString => EmptyString
  end.

(** [s.endswith(suffix)]: some tail of [s] is [suffix]. *)
Fixpoint endswith (suffix s : string) : bool :=
  String.eqb s suffix
  || match s with
     | String _ s' => endswith suffix s'
     | EmptyString => false
     end.

(** [sub in s] between two strings. *)
Fixpoint contains (sub s : string) : bool :=
  String.prefix sub s
  || match s with
     | String _ s' => contains sub s'
     | EmptyString => false
     end.

(** [s.rfind(".")] style search: the index of the last occurrence of [ch],
    [-1] when there is none. *)
Fixpoint rfind (ch : ascii) (s : string) : Z :=
  match s with
  | EmptyString => -1
  | String c s' =>
      let r := rfind ch s' in
      if (0 <=? r)%Z then (r + 1)%Z
      else if Ascii.eqb c ch then 0%Z else (-1)%Z
  end.

Definition len (s : string) : Z := Z.of_nat (String.length s).

(** Slices [s[i:]] and [s[:i]] for [0 <= i], and [s[:-k]] for [0 < k]. *)
Definition slice_from (i : Z) (s : string) : string :=
  substring (Z.to_nat i) (String.length s - Z.to_nat i) s.
Definition slice_to (i : Z) (s : string) : string :=
  substring 0 (Z.to_nat i) s.
Definition slice_drop_last (k : Z) (s : string) : string :=
  slice_to (len s - k) s.

(** [str(n)] of an [int]. *)
Definition str_of_int (n : Z) : string := NilZero.string_of_int (Z.to_int n).

Definition newline : string := String "010"%char EmptyString.

(** Truthiness of [str] and of [str | None]. *)
Definition nonempty (s : string) : bool :=
  match s with EmptyString => false | _ => true end.
Definition truthy_opt (o : option string) : bool :=
  match o with Some s => nonempty s | None => false end.

(** *** Dictionaries keep insertion order *)

Definition dict (V : Type) : Type := list (string * V).

Fixpoint dict_get {V} (k : string) (d : dict V) : option V :=
  match d with
  | [] => None
  | (k', v) :: d' => if String.eqb k' k then Some v else dict_get k d'
  end.

(** [d[k] = v]: an existing key keeps its place, a new one goes last. *)
Fixpoint dict_set {V} (k : string) (v : V) (d : dict V) : dict V :=
  match d with
  | [] => [(k, v)]
  | (k', v') :: d' =>
      if String.eqb k' k then (k', v) :: d' else (k', v') :: dict_set k v d'
  end.

(** *** Values produced by [json.loads] *)

#[warning="-register-all"]
Inductive json : Type :=
| JNull
| JBool (b : bool)
| JInt (n : Z)
| JFloat (bits : Z)                 (* the IEEE-754 double, as its 64 bits *)
| JStr (s : string)
| JArr (items : list json)
| JObj (fields : list (string * json)).

(** *** Exceptions and results *)

Record response : Type := Response { status_code : Z; text : string }.

Inductive exn : Type :=
| HTTPError (r : response)          (* requests.exceptions.HTTPError *)
| RequestException (msg : string)   (* any other failure of requests.post *)
| JSONDecodeError
| OSError (path : string)
| AttributeError
| TypeError
| KeyError
| IndexError
| ValueError (msg : string).

Inductive res (A : Type) : Type :=
| Ok (a : A)
| Raise (e : exn).
Arguments Ok {A} a.
Arguments Raise {A} e.

Definition bind {A B} (m : res A) (k : A -> res B) : res B :=
  match m with Ok a => k a | Raise e => Raise e end.

#[global] Instance res_ret : MRet res := @Ok.
#[global] Instance res_bind : MBind res := fun A B k m => bind m k.

(** *** Operations on dynamically typed values *)

(** [bool(v)]. *)
Definition truthy (v : json) : bool :=
  match v with
  | JNull => false
  | JBool b => b
  | JInt n => negb (n =? 0)%Z
  | JFloat bits => negb (bits mod 2 ^ 63 =? 0)%Z
  | JStr s => nonempty s
  | JArr items => match items with [] => false | _ => true end
  | JObj fields => match fields with [] => false | _ => true end
  end.

(** [v.get(key, default)]: only a [dict] has the method. *)
Definition get (v : json) (key : string) (default : json) : res json :=
  match v with
  | JObj fields => Ok (from_option id default (dict_get key fields))
  | _ => Raise AttributeError
  end.

Definition is_str_eq (key : string) (v : json) : bool :=
  match v with JStr s => String.eqb s key | _ => false end.

(** [key in v] for a string [key]. *)
Definition contains_key (key : string) (v : json) : res bool :=
  match v with
  | JObj fields => Ok (bool_decide (is_Some (dict_get key fields)))
  | JArr items => Ok (existsb (is_str_eq key) items)
  | JStr s => Ok (contains key s)
  | _ => Raise TypeError
  end.

(** [v[key]] for a string [key]. *)
Definition getitem (v : json) (key : string) : res json :=
  match v with
  | JObj fields =>
      match dict_get key fields with Some x => Ok x | None => Raise KeyError end
  | _ => Raise TypeError
  end.

(** [v[0]]. *)
Definition first (v : json) : res json :=
  match v with
  | JArr (x :: _) => Ok x
  | JArr [] => Raise IndexError
  | JStr (String c _) => Ok (JStr (String c EmptyString))
  | JStr EmptyString => Raise IndexError
  | JObj _ => Raise KeyError
  | _ => Raise TypeError
  end.

Fixpoint chars (s : string) : list json :=
  match s with
  | String c s' => JStr (String c EmptyString) :: chars s'
  | EmptyString => []
  end.

(** The items a [for] loop over [v] visits. *)
Definition iter (v : json) : res (list json) :=
  match v with
  | JArr items => Ok items
  | JObj fields => Ok (map (fun kv => JStr (fst kv)) fields)
  | JStr s => Ok (chars s)
  | _ => Raise TypeError
  end.

(** [v.strip()]: only a [str] has the method. *)
Definition strip_method (v : json) : res string :=
  match v with
  | JStr s => Ok (strip s)
  | _ => Raise AttributeError
  end.

(** [sep.join(items)]: every item must be a [str]. *)
Definition as_str (v : json) : res string :=
  match v with JStr s => Ok s | _ => Raise TypeError end.

Definition join (sep : string) (items : list json) : res string :=
  strs ← mapM as_str items; Ok (String.concat sep strs).

End Py.

Export Py.

(** ** The part of pathlib the program uses *)

Module Pathlib.

(** [fnmatch] on a case-sensitive (POSIX) flavour, for patterns made of
    [*], [?] and literal characters; bracket expressions do not occur in the
    patterns of this program. *)
Fixpoint fnmatch (pat name : string) : bool :=
  match pat with
  | EmptyString => negb (nonempty name)
  | String c pat' =>
      if Ascii.eqb c "*"
      then (fix star (name : string) : bool :=
              fnmatch pat' name
              || match name with
                 | String _ name' => star name'
                 | EmptyString => false
                 end) name
      else match name with
           | String d name' =>
               (Ascii.eqb c "?" || Ascii.eqb d c) && fnmatch pat' name'
           | EmptyString => false
           end
  end.

(** A pattern without wildcard or bracket. *)
Fixpoint plain (pat : string) : bool :=
  match pat with
  | String c pat' =>
      negb (Ascii.eqb c "*") && negb (Ascii.eqb c "?")
      && negb (Ascii.eqb c "[") && plain pat'
  | EmptyString => true
  end.

(** [folder.glob(pattern)] for a pattern without a separator: the entries of
    the folder, files and directories alike and in the order the folder
    enumerates them, whose name matches.  A path of the folder is represented
    by its name. *)
Definition glob (entries : list string) (pattern : string) : list string :=
  List.filter (fnmatch pattern) entries.

(** [PurePath.suffix] and [PurePath.stem] of the final component. *)
Definition has_suffix (name : string) : bool :=
  let i := rfind "." name in
  ((0 <? i) && (i <? len name - 1))%Z.

Definition suffix (name : string) : string :=
  if has_suffix name then slice_from (rfind "." name) name else "".

Definition stem (name : string) : string :=
  if has_suffix name then slice_to (rfind "." name) name else name.

(** [PurePath.with_suffix]; the messages of its errors are shortened. *)
Definition with_suffix (name sfx : string) : res string :=
  if contains "/" sfx then Raise (ValueError "Invalid suffix")
  else if nonempty sfx && negb (String.prefix "." sfx) || String.eqb sfx "."
  then Raise (ValueError "Invalid suffix")
  else if negb (nonempty name) then Raise (ValueError "empty name")
  else
    let old_suffix := suffix name in
    if negb (nonempty old_suffix) then Ok (name +:+ sfx)
    else Ok (slice_drop_last (len old_suffix) name +:+ sfx).

End Pathlib.

(** ** What the program reaches outside itself *)

(** [py_repr] is Python's [repr] of a float, a list or a dict, which [str]
    falls back to; [json_loads] is the JSON parser behind [response.json()]
    ([None] on a malformed body); [requests_post] is the HTTP round trip. *)

Record request : Type := Request {
  req_url : string;
  req_headers : dict string;
  req_params : dict string;
  req_data : string
}.

Class Runtime : Type := {
  py_repr : json -> string;
  json_loads : string -> option json;
  requests_post : request -> res response
}.

(** [str(v)], as the f-string uses it. *)
Definition py_str `{Runtime} (v : json) : string :=
  match v with
  | JNull => "None"
  | JBool true => "True"
  | JBool false => "False"
  | JInt n => str_of_int n
  | JStr s => s
  | _ => py_repr v
  end.

(** ** format_transcript *)

Definition format_utterance `{Runtime} (utterance : json) : res json :=
  speaker ← get utterance "speaker" (JInt 0);
  transcript ← get utterance "transcript" (JStr "");
  text ← strip_method transcript;
  Ok (JStr ("[Speaker " +:+ py_str speaker +:+ "]: " +:+ text)).

Definition format_transcript `{Runtime} (result : json) (diarization : bool)
  : res string :=
  has_utterances ←
    (if diarization
     then results ← get result "results" (JObj []);
          contains_key "utterances" results
     else Ok false);
  lines ←
    (if has_utterances : bool
     then results ← getitem result "results";
          utterances ← getitem results "utterances";
          items ← iter utterances;
          mapM format_utterance items
     else results ← get result "results" (JObj []);
          channels ← get results "channels" (JArr []);
          if truthy channels
          then channel ← first channels;
               alternatives ← get channel "alternatives" (JArr []);
               if truthy alternatives
               then alternative ← first alternatives;
                    transcript ← get alternative "transcript" (JStr "");
                    Ok [transcript]
               else Ok []
          else Ok []);
  join (newline +:+ newline) lines.


(** ** Constants *)

Definition SUPPORTED_EXTENSIONS : list string :=
  [".mp4"; ".mp3"; ".wav"; ".m4a"; ".flac"; ".ogg"; ".webm"].

Definition CONTENT_TYPES : dict string :=
  [(".mp4", "audio/mp4"); (".mp3", "audio/mpeg"); (".wav", "audio/wav");
   (".m4a", "audio/mp4"); (".flac", "audio/flac"); (".ogg", "audio/ogg");
   (".webm", "audio/webm")].

(** ** find_audio_files *)

(** One turn of the loop: the two [files.extend] calls. *)
Definition extend_with (entries : list string) (files : list string)
  (ext : string) : list string :=
  (files ++ Pathlib.glob entries ("*" +:+ ext))
    ++ Pathlib.glob entries ("*" +:+ upper ext).

Definition find_audio_files (entries : list string) : list string :=
  fold_left (extend_with entries) SUPPORTED_EXTENSIONS [].

(** ** transcribe_file *)

Inductive node : Type :=
| File (content : string)
| Dir.

(** [open(path, "rb")] followed by reading the whole file. *)
Definition open_rb (files : gmap string node) (path : string) : res string :=
  match files !! path with
  | Some (File content) => Ok content
  | Some Dir => Raise (OSError path)
  | None => Raise (OSError path)
  end.

Definition params (language : option string) (diarization : bool)
  : dict string :=
  let params :=
    [("punctuate", "true"); ("model", "nova-3"); ("smart_format", "true");
     ("paragraphs", "true")] in
  let params :=
    match language with
    | Some code => if nonempty code then dict_set "language" code params
                   else params
    | None => params
    end in
  if diarization
  then dict_set "utt_split" "2.0"
         (dict_set "utterances" "true" (dict_set "diarize" "true" params))
  else params.

Definition content_type (file_path : string) : string :=
  from_option id "audio/mpeg"
    (dict_get (lower (Pathlib.suffix file_path)) CONTENT_TYPES).

(** [response.raise_for_status()]: a 4xx or 5xx status raises. *)
Definition raise_for_status (r : response) : res unit :=
  if ((400 <=? status_code r) && (status_code r <? 600))%Z
  then Raise (HTTPError r) else Ok ().

(** [response.json()]. *)
Definition response_json `{Runtime} (r : response) : res json :=
  match json_loads (text r) with
  | Some v => Ok v
  | None => Raise JSONDecodeError
  end.

(** The arguments of [requests.post]: url, headers, params and the bytes of
    the opened file. *)
Definition listen_request (file_path api_key : string)
  (language : option string) (diarization : bool) (f : string) : request :=
  let url := "https://api.deepgram.com/v1/listen" in
  let headers :=
    [("Authorization", "Token " +:+ api_key);
     ("Content-Type", content_type file_path)] in
  {| req_url := url; req_headers := headers;
     req_params := params language diarization; req_data := f |}.

Definition transcribe_file `{Runtime} (files : gmap string node)
  (file_path api_key : string) (language : option string)
  (diarization : bool) : res json :=
  f ← open_rb files file_path;
  response ← requests_post
    (listen_request file_path api_key language diarization f);
  _ ← raise_for_status response;
  response_json response.

(** ** save_transcription *)

(** [open(path, "w")] truncates or creates the file, then the content is
    written in one piece; opening a directory raises. *)
Definition save_transcription (content output_path : string)
  (files : gmap string node) : gmap string node * res unit :=
  match files !! output_path with
  | Some Dir => (files, Raise (OSError output_path))
  | _ => (<[output_path := File content]> files, Ok ())
  end.

(** ** main *)

Record Args : Type := {
  lang : option string;
  diarization : bool;
  ext : string;
  api_key : option string
}.

(** What [args.folder] denotes on disk; a directory enumerates its entries
    in a fixed order. *)
Inductive folder_state : Type :=
| Missing
| NotADirectory
| Directory (entries : list string).

(** The lines the program prints, with the values they interpolate. *)
Inductive event : Type :=
| ErrApiKeyRequired
| ErrFolderMissing
| ErrNotADirectory
| NoFilesFound
| Found (n : nat)
| Transcribing (i total : nat) (name : string)
| Saved (name : string)
| ApiErrorLogged (status : Z) (body : string)
| ErrorLogged (name : string) (e : exn)
| TranscriptionComplete.

Record state : Type := State {
  files : gmap string node;
  events : list event
}.

Definition print (e : event) (st : state) : state :=
  State (files st) (events st ++ [e]).

Inductive outcome : Type :=
| Finished
| Exit (code : Z)
| Uncaught (e : exn).

(** [audio_file.with_suffix(f".{args.ext.lstrip('.')}")]. *)
Definition output_path (ext audio_file : string) : res string :=
  Pathlib.with_suffix audio_file ("." +:+ lstrip_char "." ext).

(** The body of the [try] block. *)
Definition try_body `{Runtime} (args : Args) (key : string)
  (audio_file output_path : string) (st : state) : state * res unit :=
  match transcribe_file (files st) audio_file key (lang args)
          (diarization args) with
  | Raise e => (st, Raise e)
  | Ok result =>
      match format_transcript result (diarization args) with
      | Raise e => (st, Raise e)
      | Ok content =>
          match save_transcription content output_path (files st) with
          | (files', Raise e) => (State files' (events st), Raise e)
          | (files', Ok _) =>
              (print (Saved output_path) (State files' (events st)), Ok ())
          end
      end
  end.

(** The two [except] clauses; both end in [continue]. *)
Definition handler (audio_file : string) (e : exn) (st : state)
  : state * res unit :=
  match e with
  | HTTPError r => (print (ApiErrorLogged (status_code r) (text r)) st, Ok ())
  | _ => (print (ErrorLogged audio_file e) st, Ok ())
  end.

(** One turn of the [for] loop of [main]. *)
Definition loop_body `{Runtime} (args : Args) (key : string) (total : nat)
  (i : nat) (audio_file : string) (st : state) : state * res unit :=
  match output_path (ext args) audio_file with
  | Raise e => (st, Raise e)
  | Ok output_path =>
      let st := print (Transcribing i total audio_file) st in
      match try_body args key audio_file output_path st with
      | (st', Ok _) => (st', Ok ())
      | (st', Raise e) => handler audio_file e st'
      end
  end.

(** [for i, x in enumerate(l, i): body]; an exception leaving the body ends
    the loop. *)
Fixpoint for_enumerate (body : nat -> string -> state -> state * res unit)
  (i : nat) (l : list string) (st : state) : state * res unit :=
  match l with
  | [] => (st, Ok ())
  | x :: l' =>
      match body i x st with
      | (st', Ok _) => for_enumerate body (S i) l' st'
      | (st', Raise e) => (st', Raise e)
      end
  end.

Definition main `{Runtime} (args : Args) (folder : folder_state)
  (st : state) : state * outcome :=
  if negb (truthy_opt (api_key args))
  then (print ErrApiKeyRequired st, Exit 1)
  else
    match folder with
    | Missing => (print ErrFolderMissing st, Exit 1)
    | NotADirectory => (print ErrNotADirectory st, Exit 1)
    | Directory entries =>
        let audio_files := find_audio_files entries in
        match audio_files with
        | [] => (print NoFilesFound st, Exit 0)
        | _ =>
            let st := print (Found (length audio_files)) st in
            match for_enumerate
                    (loop_body args (from_option id "" (api_key args))
                       (length audio_files))
                    1 audio_files st with
            | (st', Raise e) => (st', Uncaught e)
            | (st', Ok _) => (print TranscriptionComplete st', Finished)
            end
        end
    end.


(** ** Vocabulary of the specification *)

(** Reading an optional field, and the first item of a list. *)
Definition field (k : string) (v : json) : option json :=
  match v with JObj fields => dict_get k fields | _ => None end.

Definition head_item (v : json) : option json :=
  match v with JArr (x :: _) => Some x | _ => None end.

Definition utterances_of (result : json) : option json :=
  results ← field "results" result; field "utterances" results.

Definition channels_of (result : json) : option json :=
  results ← field "results" result; field "channels" results.

(** The path results.channels[0].alternatives[0].transcript. *)
Definition first_alternative_transcript (result : json) : option json :=
  channels ← channels_of result;
  channel ← head_item channels;
  alternatives ← field "alternatives" channel;
  alternative ← head_item alternatives;
  field "transcript" alternative.

Definition text_or_empty (o : option json) : string :=
  match o with Some (JStr t) => t | _ => "" end.

(** The line of one utterance: speaker defaulting to 0, text trimmed. *)
Definition utterance_line `{Runtime} (utterance : json) : string :=
  "[Speaker " +:+ py_str (from_option id (JInt 0) (field "speaker" utterance))
    +:+ "]: " +:+ strip (text_or_empty (field "transcript" utterance)).

Definition blank_line : string := newline +:+ newline.

(** A list that is absent or empty. *)
Definition no_items (o : option json) : bool :=
  match o with
  | None | Some (JArr []) => true
  | _ => false
  end.

(** A result whose expected fields are each absent or of the expected type:
    objects for results, utterances, channels and alternatives items, lists
    for utterances, channels and alternatives, text for transcript; the
    speaker may be any value. *)
Definition is_str (v : json) : bool :=
  match v with JStr _ => true | _ => false end.

Definition is_list_of (p : json -> bool) (v : json) : bool :=
  match v with JArr items => forallb p items | _ => false end.

Definition absent_or (p : json -> bool) (k : string)
  (fields : dict json) : bool :=
  match dict_get k fields with Some v => p v | None => true end.

Definition has_text (v : json) : bool :=
  match v with
  | JObj fields => absent_or is_str "transcript" fields
  | _ => false
  end.

Definition channel_ok (v : json) : bool :=
  match v with
  | JObj fields => absent_or (is_list_of has_text) "alternatives" fields
  | _ => false
  end.

Definition results_ok (v : json) : bool :=
  match v with
  | JObj fields =>
      absent_or (is_list_of has_text) "utterances" fields
      && absent_or (is_list_of channel_ok) "channels" fields
  | _ => false
  end.

Definition well_shaped (result : json) : bool :=
  match result with
  | JObj fields => absent_or results_ok "results" fields
  | _ => false
  end.

(** An output extension [with_suffix] accepts once its leading dots are
    stripped: something is left and it holds no path separator. *)
Definition ext_ok (ext : string) : bool :=
  nonempty (lstrip_char "." ext) && negb (contains "/" (lstrip_char "." ext)).

(** The patterns [find_audio_files] globs, in the order of its loop, and the
    position of the first one a name ends with. *)
Definition suffix_patterns : list string :=
  flat_map (fun ext => [ext; upper ext]) SUPPORTED_EXTENSIONS.

Fixpoint first_match (name : string) (patterns : list string) : nat :=
  match patterns with
  | [] => 0
  | p :: patterns' =>
      if endswith p name then 0 else S (first_match name patterns')
  end.

Definition group (name : string) : nat := first_match name suffix_patterns.

(** No pattern of the list is an ending of another one. *)
Definition unrelated (patterns : list string) : bool :=
  forallb (fun p =>
    forallb (fun q => String.eqb p q || negb (endswith p q)) patterns)
    patterns.

(** The state the loop of [main] reaches after the files of [l]. *)
Definition after `{Runtime} (args : Args) (key : string) (total i : nat)
  (l : list string) (st : state) : state :=
  fst (for_enumerate (loop_body args key total) i l st).

(** ** A sample world

    The remote service answers 401 to the upload whose bytes are "bad" and
    echoes every other upload with status 200; a body "t:<text>" parses to a
    result whose first alternative reads <text>, "{}" to an empty object and
    nothing else parses. *)

Definition transcript_result (t : string) : json :=
  JObj [("results",
         JObj [("channels",
                JArr [JObj [("alternatives",
                             JArr [JObj [("transcript", JStr t)]])]])])].

Definition sample_runtime : Runtime := {|
  py_repr := fun _ => "?";
  json_loads := fun s =>
    if String.eqb s "{}" then Some (JObj [])
    else if String.prefix "t:" s
         then Some (transcript_result (slice_from 2 s))
         else None;
  requests_post := fun r =>
    if String.eqb (req_data r) "bad"
    then Ok (Response 401 "unauthorized")
    else Ok (Response 200 (req_data r))
|}.

(** A service that answers every upload with the same response. *)
Definition constant_runtime (r : response) : Runtime := {|
  py_repr := fun _ => "?";
  json_loads := fun s => if String.eqb s "{}" then Some (JObj []) else None;
  requests_post := fun _ => Ok r
|}.

Definition sample_files : gmap string node :=
  list_to_map
    [("one.mp3", File "t:first"); ("two.mp3", File "bad");
     ("three.mp3", File "t:third"); ("a.mp3", File "t:from mp3");
     ("a.wav", File "t:from wav")].

Definition sample_args : Args :=
  {| lang := None; diarization := false; ext := "txt"; api_key := Some "key" |}.

Definition two_utterances : json :=
  JObj [("results",
         JObj [("utterances",
                JArr [JObj [("speaker", JInt 1); ("transcript", JStr " hi ")];
                      JObj [("speaker", JInt 0); ("transcript", JStr "bye")]])])].

(** ** Vocabulary of the further properties *)

(** A name one of the globs of [find_audio_files] matches. *)
Definition is_audio_name (name : string) : bool :=
  existsb (fun p => endswith p name) suffix_patterns.

(** The line an [except] clause prints for an exception. *)
Definition error_line (audio_file : string) (e : exn) : event :=
  match e with
  | HTTPError r => ApiErrorLogged (status_code r) (text r)
  | _ => ErrorLogged audio_file e
  end.

(** The lines that close the turn of a file. *)
Definition result_event (e : event) : bool :=
  match e with
  | Saved _ | ApiErrorLogged _ _ | ErrorLogged _ _ => true
  | _ => false
  end.

(** A progress line per file, each followed by the line closing its turn. *)
Fixpoint transcript_log (i total : nat) (l : list string)
  (closing : list event) : list event :=
  match l, closing with
  | f :: l', e :: closing' =>
      Transcribing i total f :: e :: transcript_log (S i) total l' closing'
  | _, _ => []
  end.

(** How a run ends, read off the options and the folder alone. *)
Definition expected_outcome (args : Args) (folder : folder_state) : outcome :=
  if negb (truthy_opt (api_key args)) then Exit 1
  else match folder with
       | Missing | NotADirectory => Exit 1
       | Directory entries =>
           match find_audio_files entries with
           | [] => Exit 0
           | _ => if ext_ok (ext args) then Finished
                  else Uncaught (ValueError "Invalid suffix")
           end
       end.

(** * Properties *)

(** ** Strings *)

Lemma length_append (a b : string) :
  String.length (a +:+ b) = String.length a + String.length b.
Proof.
  induction a as [|x a IH]; [done|].
  change (S (String.length (a +:+ b)) = S (String.length a + String.length b)).
  by rewrite IH.
Qed.

Lemma nonempty_length (s : string) : nonempty s = true <-> 0 < String.length s.
Proof. destruct s; simpl; split; (done || lia). Qed.

Lemma nonempty_false (s : string) : nonempty s = false <-> s = "".
Proof. by destruct s. Qed.

Lemma endswith_nil (sfx : string) :
  endswith sfx "" = String.eqb "" sfx || false.
Proof. reflexivity. Qed.

Lemma endswith_cons (sfx : string) (c : ascii) (s : string) :
  endswith sfx (String c s) = String.eqb (String c s) sfx || endswith sfx s.
Proof. reflexivity. Qed.

Lemma endswith_spec (sfx s : string) :
  endswith sfx s = true <-> exists pre, s = pre +:+ sfx.
Proof.
  induction s as [|c s IH].
  - rewrite endswith_nil, orb_false_r, String.eqb_eq. split.
    + intros <-. by exists "".
    + intros [[|? pre] Hp]; [done|discriminate].
  - rewrite endswith_cons, orb_true_iff, String.eqb_eq, IH. split.
    + intros [<-|[pre ->]]; [by exists ""|by exists (String c pre)].
    + intros [[|c' pre] Hp]; [by left|].
      right. exists pre.
      change (String c s = String c' (pre +:+ sfx)) in Hp. congruence.
Qed.

Lemma endswith_refl (s : string) : endswith s s = true.
Proof. apply endswith_spec. by exists "". Qed.

Lemma endswith_length (sfx s : string) :
  endswith sfx s = true -> String.length sfx <= String.length s.
Proof. intros [pre ->]%endswith_spec. rewrite length_append. lia. Qed.

(** Two endings of one name are endings of each other. *)
Lemma endswith_comparable (p q s : string) :
  endswith p s = true -> endswith q s = true ->
  endswith p q = true \/ endswith q p = true.
Proof.
  induction s as [|c s IH].
  - rewrite !endswith_nil, !orb_false_r.
    intros <-%String.eqb_eq <-%String.eqb_eq. by left.
  - intros Hp Hq.
    destruct (String.eqb_spec (String c s) p) as [<-|Np]; [by right|].
    destruct (String.eqb_spec (String c s) q) as [<-|Nq]; [by left|].
    rewrite endswith_cons in Hp, Hq.
    apply String.eqb_neq in Np, Nq. rewrite Np in Hp. rewrite Nq in Hq.
    by apply IH.
Qed.

(** ** Name matching *)

Lemma fnmatch_plain (lit name : string) :
  Pathlib.plain lit = true -> Pathlib.fnmatch lit name = String.eqb name lit.
Proof.
  revert name. induction lit as [|c lit IH]; intros name; simpl.
  - by destruct name.
  - intros [[[Hs Hq]%andb_true_iff _]%andb_true_iff Hl]%andb_true_iff.
    apply negb_true_iff in Hs, Hq. rewrite Hs, Hq.
    destruct name as [|d name]; [done|]. simpl.
    rewrite IH by done. by destruct (Ascii.eqb d c).
Qed.

Lemma fnmatch_star (lit name : string) :
  Pathlib.plain lit = true ->
  Pathlib.fnmatch ("*" +:+ lit) name = endswith lit name.
Proof.
  intros Hl. change ("*" +:+ lit) with (String "*" lit). simpl.
  induction name as [|d name IH]; simpl.
  - by rewrite fnmatch_plain.
  - rewrite fnmatch_plain by done. by rewrite IH.
Qed.

Lemma filter_ext_eq {A} (f g : A -> bool) (l : list A) :
  (forall x, f x = g x) -> List.filter f l = List.filter g l.
Proof. intros E. induction l as [|x l IH]; simpl; [done|]. by rewrite E, IH. Qed.

Lemma glob_star (entries : list string) (lit : string) :
  Pathlib.plain lit = true ->
  Pathlib.glob entries ("*" +:+ lit) = List.filter (endswith lit) entries.
Proof. intros Hl. apply filter_ext_eq. intros x. by apply fnmatch_star. Qed.

(** ** find_audio_files *)

Lemma fold_extend (entries exts acc : list string) :
  fold_left (extend_with entries) exts acc =
  acc ++ flat_map (fun ext =>
            Pathlib.glob entries ("*" +:+ ext)
              ++ Pathlib.glob entries ("*" +:+ upper ext)) exts.
Proof.
  revert acc. induction exts as [|ext exts IH]; intros acc; simpl.
  - by rewrite app_nil_r.
  - rewrite IH. unfold extend_with. by rewrite <- !app_assoc.
Qed.

(** The loop returns, pattern after pattern, the entries ending with it. *)
Lemma find_audio_files_chunks (entries : list string) :
  find_audio_files entries =
  flat_map (fun p => List.filter (endswith p) entries) suffix_patterns.
Proof.
  unfold find_audio_files. rewrite fold_extend.
  unfold SUPPORTED_EXTENSIONS, suffix_patterns. simpl.
  rewrite !glob_star by reflexivity.
  rewrite <- !app_assoc. reflexivity.
Qed.

Lemma find_audio_files_spec (entries : list string) (x : string) :
  In x (find_audio_files entries) <->
  In x entries /\ exists p, In p suffix_patterns /\ endswith p x = true.
Proof.
  rewrite find_audio_files_chunks, in_flat_map. split.
  - intros (p & Hp & [Hx E]%filter_In). eauto.
  - intros (Hx & p & Hp & E). exists p. split; [done|]. by apply filter_In.
Qed.

Lemma discovered_nonempty (entries : list string) (x : string) :
  In x (find_audio_files entries) -> nonempty x = true.
Proof.
  intros (_ & p & Hp & E)%find_audio_files_spec.
  apply nonempty_length. apply endswith_length in E.
  assert (0 < String.length p); [|lia].
  revert Hp. unfold suffix_patterns, SUPPORTED_EXTENSIONS. simpl.
  intuition (subst; simpl; lia).
Qed.

Lemma unrelated_spec (ps : list string) (p q : string) :
  unrelated ps = true -> In p ps -> In q ps -> p <> q -> endswith p q = false.
Proof.
  unfold unrelated. rewrite forallb_forall. intros H Hp Hq Hne.
  specialize (H p Hp). rewrite forallb_forall in H. specialize (H q Hq).
  apply orb_true_iff in H as [H%String.eqb_eq|H%negb_true_iff]; done.
Qed.

(** A name ends with at most one pattern of an unrelated list. *)
Lemma one_pattern (ps : list string) (p q x : string) :
  unrelated ps = true -> In p ps -> In q ps ->
  endswith p x = true -> endswith q x = true -> p = q.
Proof.
  intros U Hp Hq Ep Eq. destruct (decide (p = q)) as [|Hne]; [done|].
  destruct (endswith_comparable p q x Ep Eq) as [E|E].
  - by rewrite (unrelated_spec ps p q) in E.
  - by rewrite (unrelated_spec ps q p) in E.
Qed.

Lemma first_match_exact (ps : list string) (k : nat) (p x : string) :
  ps !! k = Some p -> endswith p x = true ->
  (forall j q, j < k -> ps !! j = Some q -> endswith q x = false) ->
  first_match x ps = k.
Proof.
  revert k. induction ps as [|q ps IH]; intros [|k] Hk E Hbefore; try done.
  - simpl in Hk. injection Hk as ->. simpl. by rewrite E.
  - simpl in *. rewrite (Hbefore 0 q) by (done || lia).
    f_equal. apply IH; [done..|].
    intros j r Hj Hr. apply (Hbefore (S j) r); [lia|done].
Qed.

Lemma first_match_of_pattern (ps : list string) (k : nat) (p x : string) :
  unrelated ps = true -> NoDup ps ->
  ps !! k = Some p -> endswith p x = true -> first_match x ps = k.
Proof.
  intros U N Hk E. apply (first_match_exact ps k p); [done..|].
  intros j q Hj Hq. destruct (endswith q x) eqn:Eq; [|done].
  assert (q = p) as ->.
  { apply (one_pattern ps q p x); try done.
    - apply list_elem_of_In, list_elem_of_lookup. eauto.
    - apply list_elem_of_In, list_elem_of_lookup. eauto. }
  pose proof (NoDup_lookup _ _ _ _ N Hq Hk). lia.
Qed.

(** Chunks laid out one after the other are sorted by chunk number. *)
Lemma flat_map_sorted {A B} (f : A -> list B) (r : B -> nat) (l : list A)
  (base : nat) :
  (forall k a x, l !! k = Some a -> In x (f a) -> r x = base + k) ->
  forall i j x y, i < j ->
    flat_map f l !! i = Some x -> flat_map f l !! j = Some y -> r x <= r y.
Proof.
  revert base. induction l as [|a l IH]; intros base Hr i j x y Hij; simpl.
  { done. }
  intros Hx Hy.
  assert (forall z, In z (f a) -> r z = base) as Hhere.
  { intros z Hz. rewrite (Hr 0 a z); [lia|done..]. }
  assert (forall z n, flat_map f l !! n = Some z -> base < r z) as Hlater.
  { intros z n Hz.
    assert (In z (flat_map f l)) as Hin.
    { apply list_elem_of_In, list_elem_of_lookup. eauto. }
    apply in_flat_map in Hin as (b & Hb & Hzb).
    apply list_elem_of_In, list_elem_of_lookup in Hb as [k Hk].
    rewrite (Hr (S k) b z); [lia|done..]. }
  apply lookup_app_Some in Hx as [Hx|[Hlx Hx]];
    apply lookup_app_Some in Hy as [Hy|[Hly Hy]].
  - rewrite !Hhere; [lia|..];
      apply list_elem_of_In, list_elem_of_lookup; eauto.
  - rewrite (Hhere x); [|apply list_elem_of_In, list_elem_of_lookup; eauto].
    apply Hlater in Hy. lia.
  - apply lookup_lt_Some in Hy. lia.
  - apply (IH (S base)) with (i := i - length (f a)) (j := j - length (f a));
      [|lia|done..].
    intros k b z Hk Hz. rewrite (Hr (S k) b z); [lia|done..].
Qed.

Lemma suffix_patterns_facts :
  unrelated suffix_patterns = true /\ NoDup suffix_patterns.
Proof.
  split; [by vm_compute|].
  apply (bool_decide_unpack (NoDup suffix_patterns)). by vm_compute.
Qed.

Lemma group_of_chunk (entries : list string) (k : nat) (p x : string) :
  suffix_patterns !! k = Some p ->
  In x (List.filter (endswith p) entries) -> group x = k.
Proof.
  intros Hk [_ E]%filter_In. destruct suffix_patterns_facts as [U N].
  by apply (first_match_of_pattern suffix_patterns k p).
Qed.

Lemma group_spec (entries : list string) (x : string) :
  In x (find_audio_files entries) ->
  exists p, suffix_patterns !! group x = Some p /\ endswith p x = true.
Proof.
  rewrite find_audio_files_chunks, in_flat_map.
  intros (p & Hp & Hx).
  apply list_elem_of_In, list_elem_of_lookup in Hp as [k Hk].
  rewrite (group_of_chunk entries k p x Hk Hx).
  apply filter_In in Hx as [_ E]. eauto.
Qed.

(** C2, at the input where the code departs from it: the globs [*.mp3] and
    [*.MP3] are the only ones tried for mp3, so a file whose extension is
    spelled [.Mp3] is left out although its lowercased extension is on the
    list. *)
Theorem mixed_case_extension_not_discovered :
  In (lower (Pathlib.suffix "clip.Mp3")) SUPPORTED_EXTENSIONS /\
  find_audio_files ["song.mp3"; "clip.Mp3"; "LOUD.MP3"; "notes.txt"]
    = ["song.mp3"; "LOUD.MP3"].
Proof. split; [|reflexivity]. vm_compute. tauto. Qed.

(** C9: the returned sequence is grouped by pattern in the order .mp4, .MP4,
    .mp3, .MP3, ..., .webm, .WEBM: each returned name ends with exactly the
    pattern of its group, and a name returned earlier never belongs to a later
    group than a name returned after it. *)
Theorem find_audio_files_grouped (entries : list string) (i j : nat)
  (x y : string) :
  i < j ->
  find_audio_files entries !! i = Some x ->
  find_audio_files entries !! j = Some y ->
  (exists p q,
      suffix_patterns !! group x = Some p /\ endswith p x = true /\
      suffix_patterns !! group y = Some q /\ endswith q y = true) /\
  group x <= group y.
Proof.
  intros Hij Hx Hy. split.
  - destruct (group_spec entries x) as (p & Hp & Ep).
    { apply list_elem_of_In, list_elem_of_lookup. eauto. }
    destruct (group_spec entries y) as (q & Hq & Eq).
    { apply list_elem_of_In, list_elem_of_lookup. eauto. }
    exists p, q. done.
  - rewrite find_audio_files_chunks in Hx, Hy.
    apply (flat_map_sorted (fun p => List.filter (endswith p) entries) group
             suffix_patterns 0) with (i := i) (j := j); [|done..].
    intros k p z Hk Hz. by apply (group_of_chunk entries k p).
Qed.

(** A folder enumerated as b.wav, a.MP4, a.mp4 is returned as a.mp4, a.MP4,
    b.wav. *)
Lemma find_audio_files_grouped_witness :
  find_audio_files ["b.wav"; "a.MP4"; "a.mp4"] = ["a.mp4"; "a.MP4"; "b.wav"] /\
  group "a.MP4" <= group "b.wav".
Proof.
  split; [reflexivity|].
  apply (find_audio_files_grouped ["b.wav"; "a.MP4"; "a.mp4"] 1 2 "a.MP4" "b.wav");
    [lia|reflexivity|reflexivity].
Defined.

(** ** Output paths *)

Lemma length_substring (s : string) (n m : nat) :
  n + m <= String.length s -> String.length (substring n m s) = m.
Proof.
  revert n m. induction s as [|c s IH]; intros [|n] [|m]; simpl; try lia.
  - intros H. rewrite IH; lia.
  - intros H. apply (IH n 0). lia.
  - intros H. apply (IH n (S m)). lia.
Qed.

Lemma contains_cons (sub : string) (c : ascii) (s : string) :
  contains sub (String c s) = String.prefix sub (String c s) || contains sub s.
Proof. reflexivity. Qed.

Lemma rfind_bound (ch : ascii) (s : string) :
  (-1 <= rfind ch s < len s \/ (rfind ch s = -1 /\ s = ""))%Z.
Proof.
  unfold len. induction s as [|c s IH]; [by right|]. left.
  cbn [rfind String.length].
  destruct (0 <=? rfind ch s)%Z eqn:E.
  - apply Z.leb_le in E. destruct IH as [IH|[IH _]]; lia.
  - destruct (Ascii.eqb c ch); lia.
Qed.

Lemma has_suffix_bounds (name : string) :
  Pathlib.has_suffix name = true ->
  (0 < rfind "." name /\ rfind "." name < len name - 1)%Z.
Proof. unfold Pathlib.has_suffix. intros [?%Z.ltb_lt ?%Z.ltb_lt]%andb_true_iff. done. Qed.

Lemma nonempty_stem (name : string) :
  nonempty (Pathlib.stem name) = nonempty name.
Proof.
  unfold Pathlib.stem. destruct (Pathlib.has_suffix name) eqn:E; [|done].
  apply has_suffix_bounds in E as [H1 H2]. unfold len in H2.
  transitivity true; [|symmetry]; apply nonempty_length; [|lia].
  unfold slice_to. rewrite length_substring; lia.
Qed.

(** [with_suffix] depends on the name through its stem only. *)
Lemma with_suffix_stem (name sfx : string) :
  Pathlib.with_suffix name sfx =
  if contains "/" sfx then Raise (ValueError "Invalid suffix")
  else if nonempty sfx && negb (String.prefix "." sfx) || String.eqb sfx "."
  then Raise (ValueError "Invalid suffix")
  else if negb (nonempty (Pathlib.stem name))
  then Raise (ValueError "empty name")
  else Ok (Pathlib.stem name +:+ sfx).
Proof.
  unfold Pathlib.with_suffix. rewrite nonempty_stem.
  destruct (contains "/" sfx); [done|].
  destruct (_ || _); [done|].
  destruct (nonempty name) eqn:Hn; [|done]. simpl.
  unfold Pathlib.suffix, Pathlib.stem.
  destruct (Pathlib.has_suffix name) eqn:E; [|done].
  apply has_suffix_bounds in E as [H1 H2]. unfold len in H2.
  assert (String.length (slice_from (rfind "." name) name)
          = String.length name - Z.to_nat (rfind "." name)) as Hlen.
  { unfold slice_from. rewrite length_substring; lia. }
  assert (nonempty (slice_from (rfind "." name) name) = true) as ->.
  { apply nonempty_length. lia. }
  simpl. unfold slice_drop_last, len. rewrite Hlen. do 2 f_equal.
  unfold slice_to. f_equal. lia.
Qed.

Lemma output_path_ok (ext name : string) :
  ext_ok ext = true -> nonempty name = true ->
  output_path ext name = Ok (Pathlib.stem name +:+ "." +:+ lstrip_char "." ext).
Proof.
  unfold ext_ok, output_path. intros [He Hs%negb_true_iff]%andb_true_iff Hn.
  rewrite with_suffix_stem, nonempty_stem, Hn.
  change ("." +:+ lstrip_char "." ext) with (String "." (lstrip_char "." ext)).
  rewrite contains_cons, Hs.
  destruct (lstrip_char "." ext); [done|]. reflexivity.
Qed.

Lemma output_path_same_stem (ext n1 n2 : string) :
  Pathlib.stem n1 = Pathlib.stem n2 -> output_path ext n1 = output_path ext n2.
Proof. intros E. unfold output_path. by rewrite !with_suffix_stem, E. Qed.

Lemma lstrip_char_dot (ext : string) :
  lstrip_char "." ("." +:+ ext) = lstrip_char "." ext.
Proof. reflexivity. Qed.

(** C8 as stated fails: an extension that is empty once its leading dots are
    stripped leaves the suffix ".", which [with_suffix] refuses, so the
    discovered file gets no output path at all. *)
Lemma output_path_rejects_empty_extension :
  In "clip.MP4" (find_audio_files ["clip.MP4"]) /\
  output_path "" "clip.MP4" = Raise (ValueError "Invalid suffix") /\
  output_path "." "clip.MP4" = Raise (ValueError "Invalid suffix").
Proof. split; [vm_compute; tauto|]. split; reflexivity. Qed.

(** C8, amended: for an extension [with_suffix] accepts ([ext_ok]: something
    is left once its leading dots are stripped, and no path separator), every
    discovered file gets the output name made of its own stem, a dot and the
    configured extension without its leading dots; an extension given with a
    leading dot yields the same name; clip.MP4 with srt gives clip.srt. *)
Theorem output_path_replaces_extension (entries : list string)
  (ext audio_file : string) :
  In audio_file (find_audio_files entries) ->
  ext_ok ext = true ->
  output_path ext audio_file
    = Ok (Pathlib.stem audio_file +:+ "." +:+ lstrip_char "." ext) /\
  output_path ("." +:+ ext) audio_file = output_path ext audio_file.
Proof.
  intros Hin He. split.
  - apply output_path_ok; [done|]. by apply (discovered_nonempty entries).
  - unfold output_path. by rewrite lstrip_char_dot.
Qed.

Lemma output_path_replaces_extension_witness :
  output_path "srt" "clip.MP4" = Ok "clip.srt" /\
  output_path ".srt" "clip.MP4" = output_path "srt" "clip.MP4".
Proof.
  apply (output_path_replaces_extension ["clip.MP4"; "readme.md"]);
    [vm_compute; tauto|reflexivity].
Defined.

(** ** format_transcript *)

Section Formatter.
Context `{Runtime}.

Lemma join_strs (sep : string) (l : list string) :
  join sep (map JStr l) = Ok (String.concat sep l).
Proof.
  unfold join.
  assert (mapM as_str (map JStr l) = Ok l) as ->; [|done].
  induction l as [|s l IH]; [done|]. simpl. by rewrite IH.
Qed.

Lemma format_utterance_line (u : json) :
  has_text u = true -> format_utterance u = Ok (JStr (utterance_line u)).
Proof.
  destruct u as [| | | | |?|fields]; try done.
  unfold has_text, absent_or, format_utterance, utterance_line. simpl.
  destruct (dict_get "transcript" fields) as [[]|]; done.
Qed.

Lemma mapM_format_utterance (us : list json) :
  forallb has_text us = true ->
  mapM format_utterance us = Ok (map (fun u => JStr (utterance_line u)) us).
Proof.
  induction us as [|u us IH]; [done|].
  intros [Hu Hus]%andb_true_iff. simpl.
  rewrite (format_utterance_line u Hu). simpl. by rewrite IH.
Qed.

Lemma utterances_of_inv (result u : json) :
  utterances_of result = Some u ->
  exists fields rfields,
    result = JObj fields /\ dict_get "results" fields = Some (JObj rfields) /\
    dict_get "utterances" rfields = Some u.
Proof.
  destruct result as [| | | | |?|fields]; try done.
  unfold utterances_of. simpl.
  destruct (dict_get "results" fields) as [[| | | | |?|rfields]|] eqn:E;
    try done.
  simpl. intros Hu. by exists fields, rfields.
Qed.

Lemma format_diarized (result : json) (us : list json) :
  utterances_of result = Some (JArr us) ->
  forallb has_text us = true ->
  format_transcript result true
    = Ok (String.concat blank_line (map utterance_line us)).
Proof.
  intros (fields & rfields & -> & Hr & Hu)%utterances_of_inv Hus.
  unfold format_transcript. simpl. rewrite Hr. simpl. rewrite Hu. simpl.
  rewrite (mapM_format_utterance us Hus). simpl.
  rewrite <- (map_map utterance_line JStr). apply join_strs.
Qed.

Lemma format_plain (result : json) (d : bool) :
  well_shaped result = true ->
  d = false \/ utterances_of result = None ->
  format_transcript result d
    = Ok (text_or_empty (first_alternative_transcript result)).
Proof.
  destruct result as [| | | | |?|fields]; try done.
  unfold well_shaped, absent_or, format_transcript, utterances_of,
    first_alternative_transcript, channels_of. simpl.
  destruct (dict_get "results" fields) as [results|] eqn:Hr; simpl.
  2:{ intros _ _. by destruct d. }
  destruct results as [| | | | |?|rfields]; try done. simpl.
  unfold absent_or.
  intros [Hu Hc]%andb_true_iff Hd.
  assert ((if d then Ok (bool_decide (is_Some (dict_get "utterances" rfields)))
           else Ok false) = Ok false) as ->.
  { destruct Hd as [->|Hd]; [done|]. rewrite Hd. by destruct d. }
  simpl.
  destruct (dict_get "channels" rfields) as [channels|]; simpl; [|done].
  destruct channels as [| | | | |[|channel ?]|?]; try done. simpl.
  simpl in Hc. apply andb_true_iff in Hc as [Hc _].
  destruct channel as [| | | | |?|cfields]; try done. simpl.
  unfold channel_ok, absent_or in Hc.
  destruct (dict_get "alternatives" cfields) as [alts|]; simpl; [|done].
  destruct alts as [| | | | |[|alt ?]|?]; try done. simpl.
  simpl in Hc. apply andb_true_iff in Hc as [Hc _].
  destruct alt as [| | | | |?|afields]; try done. simpl.
  unfold has_text, absent_or in Hc.
  destruct (dict_get "transcript" afields) as [[]|]; done.
Qed.

Lemma well_shaped_utterances (result u : json) :
  well_shaped result = true -> utterances_of result = Some u ->
  exists us, u = JArr us /\ forallb has_text us = true.
Proof.
  intros Hw (fields & rfields & -> & Hr & Hu)%utterances_of_inv.
  unfold well_shaped, absent_or in Hw. rewrite Hr in Hw. simpl in Hw.
  apply andb_true_iff in Hw as [Hw _]. unfold absent_or in Hw.
  rewrite Hu in Hw. destruct u; try done. eauto.
Qed.

Lemma format_total (result : json) (d : bool) :
  well_shaped result = true -> exists s, format_transcript result d = Ok s.
Proof.
  intros Hw. destruct d; [|rewrite format_plain; eauto].
  destruct (utterances_of result) as [u|] eqn:Hu.
  - destruct (well_shaped_utterances result u Hw Hu) as (us & -> & Hus).
    rewrite (format_diarized result us); eauto.
  - rewrite format_plain; eauto.
Qed.

End Formatter.

(** C3: with diarization on and an utterances list in the result, the output
    is one line [[Speaker n]: text] per utterance, in order, separated by
    blank lines; [n] is the speaker, 0 when the field is missing, and [text]
    is the trimmed transcript, empty when the field is missing. *)
Theorem format_transcript_diarized `{Runtime} (result : json)
  (us : list json) :
  utterances_of result = Some (JArr us) ->
  forallb has_text us = true ->
  format_transcript result true
    = Ok (String.concat blank_line (map utterance_line us)) /\
  length (map utterance_line us) = length us.
Proof.
  intros Hu Hus. split; [by apply format_diarized|apply length_map].
Qed.

Lemma format_transcript_diarized_witness :
  @format_transcript sample_runtime two_utterances true
    = Ok ("[Speaker 1]: hi" +:+ newline +:+ newline +:+ "[Speaker 0]: bye").
Proof.
  exact (proj1 (@format_transcript_diarized sample_runtime two_utterances
           [JObj [("speaker", JInt 1); ("transcript", JStr " hi ")];
            JObj [("speaker", JInt 0); ("transcript", JStr "bye")]]
           eq_refl eq_refl)).
Defined.

(** An utterance without speaker and without transcript still gets its
    line. *)
Example format_transcript_bare_utterance :
  @format_transcript sample_runtime
    (JObj [("results", JObj [("utterances", JArr [JObj []; JObj []])])]) true
    = Ok ("[Speaker 0]: " +:+ newline +:+ newline +:+ "[Speaker 0]: ").
Proof. reflexivity. Qed.

(** C4: with diarization off, or on while the result has no utterances
    field, the output is the transcript of the first alternative of the first
    channel, and the empty string when that path is not there. *)
Theorem format_transcript_first_alternative `{Runtime} (result : json)
  (d : bool) :
  well_shaped result = true ->
  d = false \/ utterances_of result = None ->
  format_transcript result d
    = Ok (text_or_empty (first_alternative_transcript result)) /\
  (first_alternative_transcript result = None ->
   format_transcript result d = Ok "").
Proof.
  intros Hw Hd. split; [by apply format_plain|].
  intros Hn. rewrite format_plain by done. by rewrite Hn.
Qed.

Lemma format_transcript_first_alternative_witness :
  @format_transcript sample_runtime (transcript_result "hello world") false
    = Ok "hello world".
Proof.
  exact (proj1 (@format_transcript_first_alternative sample_runtime
           (transcript_result "hello world") false eq_refl
           (or_introl eq_refl))).
Defined.

(** C5: on a result whose expected fields are each absent or of the expected
    type, [format_transcript] returns a string for both values of the flag;
    without utterances and without channels that string is empty. *)
Theorem format_transcript_never_fails `{Runtime} (result : json) (d : bool) :
  well_shaped result = true ->
  (exists s, format_transcript result d = Ok s) /\
  (no_items (utterances_of result) = true ->
   no_items (channels_of result) = true ->
   format_transcript result d = Ok "").
Proof.
  intros Hw. split; [by apply format_total|].
  intros Hu Hc.
  assert (first_alternative_transcript result = None) as Hn.
  { unfold first_alternative_transcript.
    destruct (channels_of result) as [[| | | | |[|]|]|]; done. }
  destruct d; [|rewrite format_plain; [by rewrite Hn|done|by left]].
  destruct (utterances_of result) as [u|] eqn:Eu.
  - destruct u as [| | | | |[|]|]; try done.
    by rewrite (format_diarized result []).
  - rewrite format_plain; [by rewrite Hn|done|by right].
Qed.

Lemma format_transcript_never_fails_witness :
  (exists s, @format_transcript sample_runtime (JObj [("results", JObj [])]) true
             = Ok s) /\
  @format_transcript sample_runtime (JObj [("results", JObj [])]) true = Ok "".
Proof.
  destruct (@format_transcript_never_fails sample_runtime
              (JObj [("results", JObj [])]) true eq_refl) as [Hs He].
  split; [exact Hs|exact (He eq_refl eq_refl)].
Defined.

(** Outside that shape the formatter can raise: a null results field has no
    [get], a null transcript cannot be joined. *)
Example format_transcript_ill_typed :
  @format_transcript sample_runtime (JObj [("results", JNull)]) false
    = Raise AttributeError /\
  @format_transcript sample_runtime
    (JObj [("results",
            JObj [("channels",
                   JArr [JObj [("alternatives",
                                JArr [JObj [("transcript", JNull)]])]])])])
    false = Raise TypeError.
Proof. split; reflexivity. Qed.

(** ** transcribe_file *)

(** C7: the query parameters are punctuate, model, smart_format and
    paragraphs in every case, followed by language exactly when a non-empty
    language code is given (the test of the source is [if language:]), followed
    by diarize, utterances and utt_split exactly when diarization is on. *)
Theorem params_exact (language : option string) (d : bool) :
  params language d =
    [("punctuate", "true"); ("model", "nova-3"); ("smart_format", "true");
     ("paragraphs", "true")]
    ++ (if truthy_opt language
        then [("language", from_option id "" language)] else [])
    ++ (if d then [("diarize", "true"); ("utterances", "true");
                   ("utt_split", "2.0")] else []) /\
  dict_get "language" (params language d)
    = (if truthy_opt language then language else None) /\
  dict_get "diarize" (params language d)
    = (if d then Some "true" else None) /\
  dict_get "utterances" (params language d)
    = (if d then Some "true" else None) /\
  dict_get "utt_split" (params language d)
    = (if d then Some "2.0" else None).
Proof. destruct language as [[|c code]|], d; repeat split; reflexivity. Qed.

(** C6 as stated fails: a final 300 answer is no success, yet
    [raise_for_status] lets it pass and the failure that follows is the
    parser's. *)
Lemma non_success_without_http_error :
  ~ (forall (R : Runtime) (files : gmap string node)
       (file_path key data : string) (language : option string) (d : bool)
       (r : response),
       open_rb files file_path = Ok data ->
       requests_post (listen_request file_path key language d data) = Ok r ->
       ~ (200 <= status_code r < 300)%Z ->
       transcribe_file files file_path key language d = Raise (HTTPError r)).
Proof.
  intros Hclaim.
  specialize (Hclaim (constant_runtime (Response 300 "unauthorized"))
                sample_files "one.mp3" "key" "t:first" None false
                (Response 300 "unauthorized") eq_refl eq_refl).
  assert (~ (200 <= 300 < 300)%Z) as Hs by lia.
  specialize (Hclaim Hs). vm_compute in Hclaim. discriminate.
Qed.

(** C6, amended: an answer with a 4xx or 5xx status makes [transcribe_file]
    raise the HTTP error that carries this very response, status and body;
    the loop of [main] has a clause of its own for that error, which prints
    both and goes on, while every other exception takes the general clause. *)
Theorem transcribe_file_http_error `{Runtime} (files : gmap string node)
  (file_path key data : string) (language : option string) (d : bool)
  (r : response) :
  open_rb files file_path = Ok data ->
  requests_post (listen_request file_path key language d data) = Ok r ->
  (400 <= status_code r < 600)%Z ->
  transcribe_file files file_path key language d = Raise (HTTPError r) /\
  (forall name st,
     handler name (HTTPError r) st
       = (print (ApiErrorLogged (status_code r) (text r)) st, Ok ())) /\
  (forall name e st,
     (forall r', e <> HTTPError r') ->
     handler name e st = (print (ErrorLogged name e) st, Ok ())).
Proof.
  intros Ho Hp Hs. split; [|split].
  - unfold transcribe_file. rewrite Ho. simpl. rewrite Hp. simpl.
    unfold raise_for_status.
    destruct (400 <=? status_code r)%Z eqn:E1; [|lia].
    destruct (status_code r <? 600)%Z eqn:E2; [done|lia].
  - done.
  - intros name e st He. destruct e; try done. by destruct (He r0).
Qed.

Lemma transcribe_file_http_error_witness :
  @transcribe_file sample_runtime sample_files "two.mp3" "key" None false
    = Raise (HTTPError (Response 401 "unauthorized")).
Proof.
  refine (proj1 (@transcribe_file_http_error sample_runtime sample_files
            "two.mp3" "key" "bad" None false (Response 401 "unauthorized")
            eq_refl eq_refl _)).
  simpl. lia.
Defined.

(** ** The loop of main *)

Section Loop.
Context `{Runtime}.
Implicit Types (st : state) (l : list string) (args : Args).

Lemma for_enumerate_app body i l1 l2 st :
  for_enumerate body i (l1 ++ l2) st =
  match for_enumerate body i l1 st with
  | (st1, Ok _) => for_enumerate body (i + length l1) l2 st1
  | (st1, Raise e) => (st1, Raise e)
  end.
Proof.
  revert i st. induction l1 as [|x l1 IH]; intros i st; simpl.
  - by rewrite Nat.add_0_r.
  - destruct (body i x st) as [st1 [[]|e]]; [|done].
    rewrite IH. by replace (S i + length l1) with (i + S (length l1)) by lia.
Qed.

Lemma save_transcription_written content p (fs : gmap string node) :
  fs !! p <> Some Dir ->
  save_transcription content p fs = (<[p := File content]> fs, Ok ()).
Proof.
  unfold save_transcription. by destruct (fs !! p) as [[]|].
Qed.

Lemma save_transcription_dirs content p (fs fs' : gmap string node) r q :
  save_transcription content p fs = (fs', r) ->
  fs' !! q = Some Dir -> fs !! q = Some Dir.
Proof.
  unfold save_transcription.
  destruct (fs !! p) as [[]|] eqn:E; intros [= <- _]; try done.
  all: destruct (decide (p = q)) as [->|Hne];
    [by rewrite lookup_insert_eq|by rewrite lookup_insert_ne].
Qed.

Lemma try_body_saved args key f p st result content :
  transcribe_file (files st) f key (lang args) (diarization args) = Ok result ->
  format_transcript result (diarization args) = Ok content ->
  files st !! p <> Some Dir ->
  try_body args key f p st
    = (print (Saved p) (State (<[p := File content]> (files st)) (events st)),
       Ok ()).
Proof.
  intros Ht Hf Hp. unfold try_body.
  by rewrite Ht, Hf, save_transcription_written.
Qed.

Lemma try_body_inv args key f p st st' r :
  try_body args key f p st = (st', r) ->
  events st `prefix_of` events st' /\
  (forall q, files st' !! q = Some Dir -> files st !! q = Some Dir).
Proof.
  unfold try_body.
  destruct (transcribe_file _ _ _ _ _) as [result|e]; [|by intros [= <- _]].
  destruct (format_transcript _ _) as [content|e]; [|by intros [= <- _]].
  destruct (save_transcription _ _ _) as [fs' [[]|e]] eqn:Es;
    intros [= <- _]; simpl; split;
    try (by apply prefix_app_r); try done;
    intros q; by apply (save_transcription_dirs _ _ _ _ _ _ Es).
Qed.

Lemma handler_inv f e st :
  exists ev, handler f e st = (print ev st, Ok ()).
Proof. destruct e; simpl; eauto. Qed.

Lemma loop_body_eq args key total i f st p :
  output_path (ext args) f = Ok p ->
  loop_body args key total i f st =
  match try_body args key f p (print (Transcribing i total f) st) with
  | (st', Ok _) => (st', Ok ())
  | (st', Raise e) => handler f e st'
  end.
Proof. intros Hp. unfold loop_body. by rewrite Hp. Qed.

(** One turn never raises once the output path exists; it prints its
    progress line first and creates no directory. *)
Lemma loop_body_inv args key total i f st p :
  output_path (ext args) f = Ok p ->
  exists st',
    loop_body args key total i f st = (st', Ok ()) /\
    (events st ++ [Transcribing i total f]) `prefix_of` events st' /\
    (forall q, files st' !! q = Some Dir -> files st !! q = Some Dir).
Proof.
  intros Hp. rewrite (loop_body_eq _ _ _ _ _ _ p Hp).
  destruct (try_body _ _ _ _ _) as [st1 r] eqn:Et.
  apply try_body_inv in Et as [Hev Hdir]. simpl in Hev, Hdir.
  destruct r as [[]|e]; [by exists st1|].
  destruct (handler_inv f e st1) as [ev ->].
  exists (print ev st1). split; [done|]. split; [|done].
  simpl. by apply prefix_app_r.
Qed.

Lemma loop_body_saved args key total i f st p result content :
  output_path (ext args) f = Ok p ->
  transcribe_file (files st) f key (lang args) (diarization args) = Ok result ->
  format_transcript result (diarization args) = Ok content ->
  files st !! p <> Some Dir ->
  loop_body args key total i f st
    = (State (<[p := File content]> (files st))
         (events st ++ [Transcribing i total f; Saved p]), Ok ()).
Proof.
  intros Hp Ht Hf Hd. rewrite (loop_body_eq _ _ _ _ _ _ p Hp).
  rewrite (try_body_saved _ _ _ _ _ result content); [|done..].
  unfold print. simpl. by rewrite <- app_assoc.
Qed.

(** The whole loop, over files that all have an output path. *)
Lemma for_enumerate_inv args key total i l st :
  (forall x, In x l -> exists p, output_path (ext args) x = Ok p) ->
  exists st',
    for_enumerate (loop_body args key total) i l st = (st', Ok ()) /\
    events st `prefix_of` events st' /\
    (forall q, files st' !! q = Some Dir -> files st !! q = Some Dir).
Proof.
  revert i st. induction l as [|x l IH]; intros i st Hp; simpl.
  { by exists st. }
  destruct (Hp x (or_introl eq_refl)) as [p Hx].
  destruct (loop_body_inv args key total i x st p Hx) as (st1 & -> & He & Hd).
  destruct (IH (S i) st1) as (st' & -> & He' & Hd').
  { intros y Hy. apply Hp. by right. }
  exists st'. split; [done|]. split; [|by auto].
  etrans; [|done]. etrans; [|done]. by apply prefix_app_r.
Qed.

Lemma after_app args key total i l1 l2 st :
  (forall x, In x l1 -> exists p, output_path (ext args) x = Ok p) ->
  after args key total i (l1 ++ l2) st
    = after args key total (i + length l1) l2 (after args key total i l1 st).
Proof.
  intros Hp. unfold after. rewrite for_enumerate_app.
  by destruct (for_enumerate_inv args key total i l1 st Hp) as (st1 & -> & _).
Qed.

Lemma discovered_output_path args entries x :
  ext_ok (ext args) = true -> In x (find_audio_files entries) ->
  exists p, output_path (ext args) x = Ok p.
Proof.
  intros He Hx. eexists. apply output_path_ok; [done|].
  by apply (discovered_nonempty entries).
Qed.

End Loop.

Lemma prefix_In {A} (l1 l2 : list A) (x : A) :
  l1 `prefix_of` l2 -> In x l1 -> In x l2.
Proof. intros [k ->] Hx. apply in_or_app. by left. Qed.

(** C1: take any file of the batch, whatever happened to the files before
    it, failures included.  The run ends normally with its completion line,
    the file is attempted, and if its own upload, formatting and write succeed
    its artifact is on disk right after its turn and reported as saved.  The
    output extension is one [with_suffix] accepts: that call sits outside
    the [try]. *)
Theorem batch_continues_after_failure `{Runtime} (args : Args)
  (entries : list string) (st : state) (before : list string) (f : string)
  (rest : list string) :
  truthy_opt (api_key args) = true ->
  ext_ok (ext args) = true ->
  find_audio_files entries = before ++ f :: rest ->
  let key := from_option id "" (api_key args) in
  let total := length (find_audio_files entries) in
  let st0 := print (Found total) st in
  let st1 := after args key total 1 before st0 in
  exists st',
    main args (Directory entries) st = (st', Finished) /\
    last (events st') = Some TranscriptionComplete /\
    In (Transcribing (1 + length before) total f) (events st') /\
    (forall result content p,
       transcribe_file (files st1) f key (lang args) (diarization args)
         = Ok result ->
       format_transcript result (diarization args) = Ok content ->
       output_path (ext args) f = Ok p ->
       files st1 !! p <> Some Dir ->
       files (after args key total 1 (before ++ [f]) st0) !! p
         = Some (File content) /\
       In (Saved p) (events st')).
Proof.
  intros Hkey Hext Hfind key total st0 st1.
  assert (forall x, In x (find_audio_files entries) ->
                    exists p, output_path (ext args) x = Ok p) as Hall.
  { intros x Hx. by apply (discovered_output_path args entries). }
  assert (forall x, In x before -> exists p, output_path (ext args) x = Ok p)
    as Hbefore.
  { intros x Hx. apply Hall. rewrite Hfind. apply in_or_app. by left. }
  destruct (Hall f) as [p Hp].
  { rewrite Hfind. apply in_or_app. right. by left. }
  (* the turn of [f] *)
  destruct (loop_body_inv args key total (1 + length before) f st1 p Hp)
    as (st2 & Hstep & Hev2 & _).
  assert (after args key total 1 (before ++ [f]) st0 = st2) as Hafter2.
  { rewrite after_app by done. unfold after at 1. simpl.
    fold st1. simpl in Hstep. by rewrite Hstep. }
  (* the whole loop *)
  destruct (for_enumerate_inv args key total 1 (find_audio_files entries) st0
              Hall) as (st3 & Hloop & _ & _).
  assert (events st2 `prefix_of` events st3) as Hev3.
  { assert (st3 = after args key total (1 + length (before ++ [f])) rest st2)
      as ->.
    { rewrite <- Hafter2, <- after_app.
      - rewrite <- app_assoc. simpl. rewrite <- Hfind. unfold after.
        by rewrite Hloop.
      - intros x [Hx| [<-|[]]]%in_app_or; eauto. }
    unfold after.
    destruct (for_enumerate_inv args key total
                (1 + length (before ++ [f])) rest st2) as (s & -> & Hs & _);
      [|done].
    intros x Hx. apply Hall. rewrite Hfind. apply in_or_app. right. by right. }
  exists (print TranscriptionComplete st3). split; [|split; [|split]].
  - unfold main. rewrite Hkey. simpl. fold total.
    destruct (find_audio_files entries) as [|a l] eqn:E.
    { by destruct before. }
    fold st0. fold key. by rewrite Hloop.
  - simpl. apply last_snoc.
  - simpl. apply in_or_app. left.
    apply (prefix_In (events st2)); [done|].
    apply (prefix_In _ _ _ Hev2). apply in_or_app. right. by left.
  - intros result content p' Ht Hf Hp' Hd.
    assert (p' = p) as -> by congruence.
    rewrite Hafter2.
    rewrite (loop_body_saved args key total _ f st1 p result content)
      in Hstep; [|done..].
    injection Hstep as <-. simpl. split; [apply lookup_insert_eq|].
    simpl in Hev3. apply in_or_app. left.
    apply (prefix_In _ _ _ Hev3). apply in_or_app. right. right. by left.
Qed.

(** Three files, the second answered 401: the third is still attempted and
    saved, and the run finishes. *)
Lemma batch_continues_after_failure_witness :
  exists st',
    @main sample_runtime sample_args
      (Directory ["one.mp3"; "two.mp3"; "three.mp3"]) (State sample_files [])
      = (st', Finished) /\
    last (events st') = Some TranscriptionComplete /\
    In (Transcribing 3 3 "three.mp3") (events st') /\
    In (Saved "three.txt") (events st').
Proof.
  destruct (@batch_continues_after_failure sample_runtime sample_args
              ["one.mp3"; "two.mp3"; "three.mp3"] (State sample_files [])
              ["one.mp3"; "two.mp3"] "three.mp3" [] eq_refl eq_refl eq_refl)
    as (st' & Hmain & Hlast & Hattempt & Hsaved).
  exists st'. split; [exact Hmain|]. split; [exact Hlast|].
  split; [exact Hattempt|].
  refine (proj2 (Hsaved (transcript_result "third") "third" "three.txt"
                   eq_refl eq_refl eq_refl _)).
  vm_compute. discriminate.
Defined.

(** The same run in full: both artifacts are on disk, the failure is
    reported with its status and body, nothing is written for the second
    file. *)
Example three_files_second_fails :
  let '(st', o) :=
    @main sample_runtime sample_args
      (Directory ["one.mp3"; "two.mp3"; "three.mp3"]) (State sample_files []) in
  o = Finished /\
  events st' =
    [Found 3; Transcribing 1 3 "one.mp3"; Saved "one.txt";
     Transcribing 2 3 "two.mp3"; ApiErrorLogged 401 "unauthorized";
     Transcribing 3 3 "three.mp3"; Saved "three.txt";
     TranscriptionComplete] /\
  files st' !! "one.txt" = Some (File "first") /\
  files st' !! "two.txt" = None /\
  files st' !! "three.txt" = Some (File "third").
Proof. vm_compute. repeat split. Qed.

(** An extension that strips to nothing makes [with_suffix] raise before the
    [try] is entered, and the run stops at the first file. *)
Example empty_extension_aborts :
  snd (@main sample_runtime
         {| lang := None; diarization := false; ext := ".";
            api_key := Some "key" |}
         (Directory ["one.mp3"; "two.mp3"]) (State sample_files []))
    = Uncaught (ValueError "Invalid suffix").
Proof. reflexivity. Qed.

(** C10: two discovered files with the same stem get the same output path;
    when both are processed successfully the artifact of the earlier one is on
    disk after its turn and the artifact of the later one has taken its place
    after the later turn, which prints its two usual lines and nothing
    else. *)
Theorem later_artifact_replaces_earlier `{Runtime} (args : Args)
  (key : string) (total : nat) (entries : list string) (st0 : state)
  (before : list string) (f1 : string) (mid : list string) (f2 : string)
  (rest : list string) :
  ext_ok (ext args) = true ->
  find_audio_files entries = before ++ f1 :: mid ++ f2 :: rest ->
  Pathlib.stem f1 = Pathlib.stem f2 ->
  let st1 := after args key total 1 before st0 in
  let st1' := after args key total 1 (before ++ [f1]) st0 in
  let st2 := after args key total 1 (before ++ f1 :: mid) st0 in
  let st2' := after args key total 1 (before ++ f1 :: mid ++ [f2]) st0 in
  exists p,
    output_path (ext args) f1 = Ok p /\
    output_path (ext args) f2 = Ok p /\
    (forall r1 c1 r2 c2,
       files st1 !! p <> Some Dir ->
       transcribe_file (files st1) f1 key (lang args) (diarization args)
         = Ok r1 ->
       format_transcript r1 (diarization args) = Ok c1 ->
       transcribe_file (files st2) f2 key (lang args) (diarization args)
         = Ok r2 ->
       format_transcript r2 (diarization args) = Ok c2 ->
       files st1' !! p = Some (File c1) /\
       files st2' !! p = Some (File c2) /\
       events st2'
         = events st2
             ++ [Transcribing (1 + length (before ++ f1 :: mid)) total f2;
                 Saved p]).
Proof.
  intros Hext Hfind Hstem st1 st1' st2 st2'.
  assert (forall x, In x (find_audio_files entries) ->
                    exists p, output_path (ext args) x = Ok p) as Hall.
  { intros x Hx. by apply (discovered_output_path args entries). }
  assert (forall x, In x (before ++ f1 :: mid) ->
                    exists p, output_path (ext args) x = Ok p) as Hpre.
  { intros x Hx. apply Hall. rewrite Hfind.
    replace (before ++ f1 :: mid ++ f2 :: rest)
      with ((before ++ f1 :: mid) ++ f2 :: rest)
      by (by rewrite <- app_assoc).
    apply in_or_app. by left. }
  assert (forall x, In x before ->
                    exists p, output_path (ext args) x = Ok p) as Hbefore.
  { intros x Hx. apply Hpre. apply in_or_app. by left. }
  destruct (Hpre f1) as [p Hp1].
  { apply in_or_app. right. by left. }
  assert (output_path (ext args) f2 = Ok p) as Hp2.
  { by rewrite <- (output_path_same_stem (ext args) f1 f2). }
  exists p. split; [done|]. split; [done|].
  intros r1 c1 r2 c2 Hd Ht1 Hf1 Ht2 Hf2.
  (* the turn of [f1] *)
  assert (st1' = State (<[p := File c1]> (files st1))
                   (events st1
                      ++ [Transcribing (1 + length before) total f1; Saved p]))
    as Hst1'.
  { unfold st1'. rewrite after_app by done. unfold after at 1. simpl.
    fold st1.
    pose proof (loop_body_saved args key total (1 + length before) f1 st1 p
                  r1 c1 Hp1 Ht1 Hf1 Hd) as Hstep.
    simpl in Hstep. by rewrite Hstep. }
  (* the files in between create no directory *)
  assert (files st2 !! p <> Some Dir) as Hd2.
  { unfold st2.
    replace (before ++ f1 :: mid) with ((before ++ [f1]) ++ mid)
      by (by rewrite <- app_assoc).
    rewrite after_app.
    2:{ intros x Hx. apply Hpre. apply in_app_or in Hx as [Hx|[<-|[]]];
          apply in_or_app; [by left|right; by left]. }
    fold st1'. unfold after.
    destruct (for_enumerate_inv args key total
                (1 + length (before ++ [f1])) mid st1') as (s & -> & _ & Hdir).
    { intros x Hx. apply Hpre. apply in_or_app. right. by right. }
    simpl. intros Hs. apply Hdir in Hs. rewrite Hst1' in Hs. simpl in Hs.
    by rewrite lookup_insert_eq in Hs. }
  (* the turn of [f2] *)
  assert (st2' = State (<[p := File c2]> (files st2))
                   (events st2
                      ++ [Transcribing (1 + length (before ++ f1 :: mid))
                            total f2; Saved p]))
    as Hst2'.
  { unfold st2'.
    replace (before ++ f1 :: mid ++ [f2])
      with ((before ++ f1 :: mid) ++ [f2])
      by (by rewrite <- app_assoc).
    rewrite after_app by done. unfold after at 1. simpl. fold st2.
    pose proof (loop_body_saved args key total
                  (1 + length (before ++ f1 :: mid)) f2 st2 p
                  r2 c2 Hp2 Ht2 Hf2 Hd2) as Hstep.
    simpl in Hstep. by rewrite Hstep. }
  rewrite Hst1', Hst2'. simpl.
  by rewrite !lookup_insert_eq.
Qed.

(** a.mp3 and a.wav both go to a.txt; a.mp3 is discovered first, so a.txt
    ends up holding the transcript of a.wav. *)
Lemma later_artifact_replaces_earlier_witness :
  find_audio_files ["a.wav"; "a.mp3"] = ["a.mp3"; "a.wav"] /\
  output_path "txt" "a.mp3" = Ok "a.txt" /\
  output_path "txt" "a.wav" = Ok "a.txt" /\
  files (@after sample_runtime sample_args "key" 2 1 ["a.mp3"]
           (State sample_files [])) !! "a.txt" = Some (File "from mp3") /\
  files (@after sample_runtime sample_args "key" 2 1 ["a.mp3"; "a.wav"]
           (State sample_files [])) !! "a.txt" = Some (File "from wav").
Proof.
  destruct (@later_artifact_replaces_earlier sample_runtime sample_args "key" 2
              ["a.wav"; "a.mp3"] (State sample_files []) [] "a.mp3" []
              "a.wav" [] eq_refl eq_refl eq_refl)
    as (p & Hp1 & Hp2 & Hrun).
  assert (p = "a.txt") as -> by (vm_compute in Hp1; congruence).
  split; [reflexivity|]. split; [exact Hp1|]. split; [exact Hp2|].
  assert (sample_files !! "a.txt" <> Some Dir) as Hd
    by (vm_compute; discriminate).
  destruct (Hrun (transcript_result "from mp3") "from mp3"
              (transcript_result "from wav") "from wav"
              Hd eq_refl eq_refl eq_refl eq_refl) as (H1 & H2 & _).
  split; [exact H1|exact H2].
Defined.

(** * Further properties *)

(** ** What find_audio_files returns *)

(** X1: the result is, extension after extension in the order of
    [SUPPORTED_EXTENSIONS], the entries ending with the extension as written
    followed by the entries ending with its uppercase form, each run in the
    order the folder enumerates its entries. *)
Theorem find_audio_files_per_extension (entries : list string) :
  find_audio_files entries =
  flat_map (fun ext =>
              List.filter (endswith ext) entries
                ++ List.filter (endswith (upper ext)) entries)
    SUPPORTED_EXTENSIONS.
Proof.
  unfold find_audio_files. rewrite fold_extend.
  unfold SUPPORTED_EXTENSIONS. simpl.
  rewrite !glob_star by reflexivity.
  reflexivity.
Qed.

Lemma flat_map_nil {A B} (l : list A) :
  flat_map (fun _ : A => @nil B) l = [].
Proof. by induction l. Qed.

Lemma flat_map_split {A B} (g h : A -> list B) (l : list A) :
  Permutation (flat_map (fun a => g a ++ h a) l)
    (flat_map g l ++ flat_map h l).
Proof.
  induction l as [|a l IH]; simpl; [done|].
  rewrite IH, <- !app_assoc. apply Permutation_app_head.
  rewrite !app_assoc. apply Permutation_app_tail, Permutation_app_comm.
Qed.

(** Among predicates of which a value satisfies at most one, the value is
    picked once if any holds and not at all otherwise. *)
Lemma flat_map_pick {A B} (f : A -> B -> bool) (x : B) (ps : list A) :
  NoDup ps ->
  (forall p q, In p ps -> In q ps -> f p x = true -> f q x = true -> p = q) ->
  flat_map (fun p => if f p x then [x] else []) ps
    = if existsb (fun p => f p x) ps then [x] else [].
Proof.
  induction ps as [|p ps IH]; intros Hnd Hone; simpl; [done|].
  apply NoDup_cons in Hnd as [Hp Hnd]. rewrite list_elem_of_In in Hp.
  destruct (f p x) eqn:E; simpl.
  - assert (flat_map (fun q => if f q x then [x] else []) ps = []) as ->;
      [|done].
    clear IH Hnd. induction ps as [|q ps IH]; simpl; [done|].
    destruct (f q x) eqn:Eq.
    + destruct Hp. left. symmetry.
      apply Hone; [by left|right; by left|done..].
    + apply IH; [by intros ?; apply Hp; right|].
      intros r t [<-|Hr] [<-|Ht]; try done.
      * intros _ Et. apply Hone; [by left|right; by right|done..].
      * intros Er _. apply Hone; [right; by right|by left|done..].
      * apply Hone; right; by right.
  - apply IH; [done|]. intros q r Hq Hr. apply Hone; by right.
Qed.

Lemma flat_map_filter_perm {A B} (f : A -> B -> bool) (ps : list A)
  (l : list B) :
  NoDup ps ->
  (forall x p q,
     In p ps -> In q ps -> f p x = true -> f q x = true -> p = q) ->
  Permutation (flat_map (fun p => List.filter (f p) l) ps)
    (List.filter (fun x => existsb (fun p => f p x) ps) l).
Proof.
  intros Hnd Hone. induction l as [|x l IH]; simpl.
  { by rewrite flat_map_nil. }
  assert (flat_map (fun p => if f p x then x :: List.filter (f p) l
                             else List.filter (f p) l) ps
          = flat_map (fun p => (if f p x then [x] else [])
                                 ++ List.filter (f p) l) ps) as ->.
  { apply flat_map_ext. intros p. by destruct (f p x). }
  rewrite flat_map_split, IH, (flat_map_pick f x ps Hnd (Hone x)).
  by destruct (existsb _ ps).
Qed.

(** X2: the result is a rearrangement of the entries some glob matches:
    none is lost, none is returned twice as often as the folder lists it;
    with distinct entries the result has no repetition, and it is never
    longer than the listing. *)
Theorem find_audio_files_permutation (entries : list string) :
  Permutation (find_audio_files entries) (List.filter is_audio_name entries) /\
  (NoDup entries -> NoDup (find_audio_files entries)) /\
  length (find_audio_files entries) <= length entries.
Proof.
  assert (Permutation (find_audio_files entries)
            (List.filter is_audio_name entries)) as Hperm.
  { rewrite find_audio_files_chunks.
    destruct suffix_patterns_facts as [U N].
    apply (flat_map_filter_perm (fun p x => endswith p x)); [done|].
    intros x p q Hp Hq Ep Eq. by apply (one_pattern suffix_patterns p q x). }
  split; [done|]. split.
  - intros Hnd. rewrite Hperm. apply NoDup_ListNoDup, List.NoDup_filter.
    by apply NoDup_ListNoDup.
  - rewrite Hperm. apply filter_length_le.
Qed.

(** ** Names, suffixes and output paths *)

Lemma append_cons (c : ascii) (a b : string) :
  String c a +:+ b = String c (a +:+ b).
Proof. reflexivity. Qed.

Lemma substring_prefix (s t : string) :
  substring 0 (String.length s) (s +:+ t) = s.
Proof.
  induction s as [|c s IH]; [by destruct t|].
  rewrite append_cons. simpl. by rewrite IH.
Qed.

Lemma substring_skip (s t : string) (m : nat) :
  substring (String.length s) m (s +:+ t) = substring 0 m t.
Proof. induction s as [|c s IH]; [done|]. by rewrite append_cons. Qed.

Lemma substring_all (t : string) : substring 0 (String.length t) t = t.
Proof. induction t as [|c t IH]; [done|]. simpl. by rewrite IH. Qed.

Lemma append_inj_r (a b c : string) : a +:+ c = b +:+ c -> a = b.
Proof.
  revert b. induction a as [|x a IH]; intros [|y b] E; try done.
  - apply (f_equal String.length) in E.
    rewrite !length_append in E. simpl in E. lia.
  - apply (f_equal String.length) in E.
    rewrite !length_append in E. simpl in E. lia.
  - rewrite !append_cons in E. injection E as -> E. f_equal. by apply IH.
Qed.

Lemma rfind_append_dot (s body : string) :
  rfind "." body = (-1)%Z -> rfind "." (s +:+ String "." body) = len s.
Proof.
  intros Hb. unfold len. induction s as [|c s IH].
  - change ("" +:+ String "." body) with (String "." body).
    cbn [rfind]. by rewrite Hb.
  - rewrite append_cons. cbn [rfind String.length]. rewrite IH.
    destruct (0 <=? Z.of_nat (String.length s))%Z eqn:E; lia.
Qed.

(** A non-empty stem followed by a dot and a non-empty part without dot
    splits back into these two pieces. *)
Lemma suffix_append (s body : string) :
  nonempty s = true -> nonempty body = true -> rfind "." body = (-1)%Z ->
  Pathlib.suffix (s +:+ String "." body) = String "." body /\
  Pathlib.stem (s +:+ String "." body) = s.
Proof.
  intros Hs%nonempty_length Hb%nonempty_length Hd.
  unfold Pathlib.suffix, Pathlib.stem, Pathlib.has_suffix.
  rewrite (rfind_append_dot s body Hd). unfold len.
  rewrite length_append. cbn [String.length].
  assert ((0 <? Z.of_nat (String.length s))%Z = true) as ->
    by (apply Z.ltb_lt; lia).
  assert ((Z.of_nat (String.length s)
           <? Z.of_nat (String.length s + S (String.length body)) - 1)%Z
          = true) as -> by (apply Z.ltb_lt; lia).
  simpl. unfold slice_from, slice_to. rewrite Nat2Z.id, length_append.
  split; [|apply substring_prefix].
  rewrite substring_skip.
  replace (String.length s + String.length (String "." body)
           - String.length s) with (String.length (String "." body)) by lia.
  apply substring_all.
Qed.

(** X3: a name made of a non-empty stem and a supported extension, written
    in lowercase or in uppercase, is uploaded with the content type the table
    gives for that extension. *)
Theorem content_type_of_extension (s ext : string) :
  nonempty s = true ->
  In ext SUPPORTED_EXTENSIONS ->
  dict_get ext CONTENT_TYPES = Some (content_type (s +:+ ext)) /\
  content_type (s +:+ upper ext) = content_type (s +:+ ext).
Proof.
  intros Hs Hext. unfold content_type.
  unfold SUPPORTED_EXTENSIONS in Hext. simpl in Hext.
  repeat destruct Hext as [<-|Hext]; try done.
  all: match goal with
       | |- context [upper ?e] =>
           let u := eval vm_compute in (upper e) in
           change (upper e) with u
       end.
  all: repeat match goal with
         | |- context [Pathlib.suffix (?t +:+ String "." ?body)] =>
             rewrite (proj1 (suffix_append t body Hs eq_refl eq_refl))
         end.
  all: split; reflexivity.
Qed.

Lemma content_type_of_extension_witness :
  dict_get ".flac" CONTENT_TYPES = Some (content_type "take1.flac") /\
  content_type "take1.FLAC" = content_type "take1.flac".
Proof.
  apply (content_type_of_extension "take1" ".flac"); [reflexivity|].
  vm_compute. tauto.
Defined.

(** X4: an entry whose whole name is one of the patterns, such as [.mp4],
    is discovered, yet [pathlib] sees no suffix in it: it is uploaded with the
    default content type and its output name keeps the whole name in front of
    the new extension. *)
Theorem bare_extension_name (entries : list string) (p ext : string) :
  In p suffix_patterns ->
  In p entries ->
  ext_ok ext = true ->
  In p (find_audio_files entries) /\
  Pathlib.suffix p = "" /\
  content_type p = "audio/mpeg" /\
  output_path ext p = Ok (p +:+ "." +:+ lstrip_char "." ext).
Proof.
  intros Hp He Hext. split.
  { apply find_audio_files_spec. split; [done|].
    exists p. split; [done|apply endswith_refl]. }
  unfold suffix_patterns, SUPPORTED_EXTENSIONS in Hp. simpl in Hp.
  repeat destruct Hp as [<-|Hp]; try done.
  all: split; [reflexivity|]; split; [reflexivity|].
  all: by rewrite output_path_ok.
Qed.

Lemma bare_extension_name_witness :
  In ".mp4" (find_audio_files ["talk.mp4"; ".mp4"]) /\
  Pathlib.suffix ".mp4" = "" /\
  content_type ".mp4" = "audio/mpeg" /\
  output_path "txt" ".mp4" = Ok ".mp4.txt".
Proof.
  apply (bare_extension_name ["talk.mp4"; ".mp4"] ".mp4" "txt");
    [vm_compute; tauto|vm_compute; tauto|reflexivity].
Defined.

(** How [output_path] ends, case by case. *)
Lemma output_path_cases (ext name : string) :
  output_path ext name =
  if ext_ok ext
  then if nonempty name
       then Ok (Pathlib.stem name +:+ "." +:+ lstrip_char "." ext)
       else Raise (ValueError "empty name")
  else Raise (ValueError "Invalid suffix").
Proof.
  unfold output_path, ext_ok. rewrite with_suffix_stem, nonempty_stem.
  change ("." +:+ lstrip_char "." ext) with (String "." (lstrip_char "." ext)).
  rewrite contains_cons.
  change (String.prefix "/" (String "." (lstrip_char "." ext))) with false.
  destruct (lstrip_char "." ext) as [|c body] eqn:E.
  - reflexivity.
  - simpl nonempty. rewrite andb_true_l.
    destruct (contains "/" (String c body)); [done|]. simpl.
    by destruct (nonempty name).
Qed.

Lemma output_path_inv (ext name p : string) :
  output_path ext name = Ok p ->
  ext_ok ext = true /\ nonempty name = true /\
  p = Pathlib.stem name +:+ "." +:+ lstrip_char "." ext.
Proof.
  rewrite output_path_cases.
  destruct (ext_ok ext); [|done]. destruct (nonempty name); [|done].
  by intros [= <-].
Qed.

(** X6: when the extension, once its leading dots are gone, holds no further
    dot, the output path has the stem of the source and that extension as its
    suffix. *)
Theorem output_path_keeps_stem (ext name p : string) :
  rfind "." (lstrip_char "." ext) = (-1)%Z ->
  output_path ext name = Ok p ->
  Pathlib.stem p = Pathlib.stem name /\
  Pathlib.suffix p = "." +:+ lstrip_char "." ext.
Proof.
  intros Hd (He & Hn & ->)%output_path_inv.
  apply andb_true_iff in He as [Hb _].
  rewrite <- nonempty_stem in Hn.
  change ("." +:+ lstrip_char "." ext) with (String "." (lstrip_char "." ext)).
  destruct (suffix_append (Pathlib.stem name) (lstrip_char "." ext))
    as [E1 E2]; done.
Qed.

Lemma output_path_keeps_stem_witness :
  Pathlib.stem "talk.v2.txt" = Pathlib.stem "talk.v2.MP4" /\
  Pathlib.suffix "talk.v2.txt" = ".txt".
Proof.
  apply (output_path_keeps_stem ".txt" "talk.v2.MP4" "talk.v2.txt");
    reflexivity.
Defined.

(** X7: for an accepted extension, two non-empty names get the same output
    path exactly when they have the same stem. *)
Theorem output_path_collision (ext n1 n2 : string) :
  ext_ok ext = true -> nonempty n1 = true -> nonempty n2 = true ->
  output_path ext n1 = output_path ext n2 <-> Pathlib.stem n1 = Pathlib.stem n2.
Proof.
  intros He H1 H2. rewrite !output_path_cases, He, H1, H2. split.
  - intros [= E]. by apply append_inj_r in E.
  - by intros ->.
Qed.

Lemma output_path_collision_witness :
  (output_path "txt" "a.mp3" = output_path "txt" "a.wav"
   <-> Pathlib.stem "a.mp3" = Pathlib.stem "a.wav") /\
  output_path "txt" "a.mp3" <> output_path "txt" "b.mp3".
Proof.
  split; [by apply (output_path_collision "txt" "a.mp3" "a.wav")|].
  intros E.
  by apply (output_path_collision "txt" "a.mp3" "b.mp3" eq_refl eq_refl eq_refl)
    in E.
Defined.

(** ** Reading and writing files *)



(** X12: [transcribe_file] returns a value exactly when the path holds a
    regular file, the service answers the upload of its bytes with a status
    outside 400..599, and the body of that answer parses; the value is the
    parsed body. *)
Theorem transcribe_file_success `{Runtime} (fs : gmap string node)
  (file_path key : string) (language : option string) (d : bool) (v : json) :
  transcribe_file fs file_path key language d = Ok v <->
  exists data r,
    fs !! file_path = Some (File data) /\
    requests_post (listen_request file_path key language d data) = Ok r /\
    ~ (400 <= status_code r < 600)%Z /\
    json_loads (text r) = Some v.
Proof.
  unfold transcribe_file, open_rb, raise_for_status, response_json. split.
  - destruct (fs !! file_path) as [[data|]|]; simpl; try done.
    destruct (requests_post _) as [r|] eqn:Hr; simpl; [|done].
    destruct (400 <=? status_code r)%Z eqn:E1;
      destruct (status_code r <? 600)%Z eqn:E2; simpl; try done.
    all: destruct (json_loads (text r)) as [w|] eqn:Hj; [|done].
    all: intros [= <-]; exists data, r; repeat split; try done; lia.
  - intros (data & r & -> & Hr & Hs & Hj). simpl. rewrite Hr. simpl.
    destruct (400 <=? status_code r)%Z eqn:E1;
      destruct (status_code r <? 600)%Z eqn:E2; simpl;
      try (by rewrite Hj).
    lia.
Qed.

Lemma transcribe_file_reads_file `{Runtime} (fs : gmap string node)
  (file_path key : string) (language : option string) (d : bool) (v : json) :
  transcribe_file fs file_path key language d = Ok v ->
  fs !! file_path <> Some Dir.
Proof.
  unfold transcribe_file, open_rb.
  by destruct (fs !! file_path) as [[]|].
Qed.

(** ** More on format_transcript *)

(** X13: an utterances list that is present but empty gives the empty
    output under diarization, whatever the channels hold; without diarization
    the same result, when well shaped, still gives the transcript of its first
    alternative. *)
Theorem empty_utterances_hide_channels `{Runtime} (result : json) :
  utterances_of result = Some (JArr []) ->
  format_transcript result true = Ok "" /\
  (well_shaped result = true ->
   format_transcript result false
     = Ok (text_or_empty (first_alternative_transcript result))).
Proof.
  intros Hu. split.
  - by rewrite (format_diarized result []).
  - intros Hw. apply format_plain; [done|by left].
Qed.

Lemma empty_utterances_hide_channels_witness :
  let result :=
    JObj [("results",
           JObj [("utterances", JArr []);
                 ("channels",
                  JArr [JObj [("alternatives",
                               JArr [JObj [("transcript", JStr "hello")]])]])])]
  in
  @format_transcript sample_runtime result true = Ok "" /\
  @format_transcript sample_runtime result false = Ok "hello".
Proof.
  intros result.
  destruct (@empty_utterances_hide_channels sample_runtime result eq_refl)
    as [H1 H2].
  split; [exact H1|exact (H2 eq_refl)].
Defined.

(** X14: a result that is not an object makes the formatter raise
    [AttributeError] for both values of the flag, and so does a null
    [results] field without diarization; with diarization the null field
    raises [TypeError] at the membership test. *)
Theorem format_transcript_type_errors `{Runtime} (result : json) (d : bool) :
  ((forall fields, result <> JObj fields) ->
   format_transcript result d = Raise AttributeError) /\
  (field "results" result = Some JNull ->
   format_transcript result d
     = Raise (if d then TypeError else AttributeError)).
Proof.
  split.
  - intros Hn. destruct result; destruct d; try done.
    all: by destruct (Hn fields).
  - destruct result as [| | | | |?|fields]; try done. simpl.
    intros Hr. unfold format_transcript. simpl. rewrite Hr.
    by destruct d.
Qed.

Lemma format_transcript_type_errors_witness :
  @format_transcript sample_runtime (JArr []) true = Raise AttributeError /\
  @format_transcript sample_runtime (JObj [("results", JNull)]) true
    = Raise TypeError.
Proof.
  split.
  - apply (proj1 (@format_transcript_type_errors sample_runtime (JArr [])
                    true)).
    discriminate.
  - exact (proj2 (@format_transcript_type_errors sample_runtime
                    (JObj [("results", JNull)]) true) eq_refl).
Defined.

(** ** More on the loop of main *)

Section Run.
Context `{Runtime}.
Implicit Types (st : state) (l : list string) (args : Args).

Lemma handler_error_line f e st :
  handler f e st = (print (error_line f e) st, Ok ()).
Proof. by destruct e. Qed.

Lemma result_event_error_line f e : result_event (error_line f e) = true.
Proof. by destruct e. Qed.

Lemma try_body_frame args key f p st st' r q :
  try_body args key f p st = (st', r) -> q <> p ->
  files st' !! q = files st !! q.
Proof.
  unfold try_body, save_transcription.
  destruct (transcribe_file _ _ _ _ _) as [result|e]; [|by intros [= <- _]].
  destruct (format_transcript _ _) as [content|e]; [|by intros [= <- _]].
  destruct (files st !! p) as [[]|]; intros [= <- _] Hq; simpl; try done.
  all: by rewrite lookup_insert_ne.
Qed.

(** What the [try] block leaves behind: the saved line after a success,
    no line at all when it raises. *)
Lemma try_body_events args key f p st st' r :
  try_body args key f p st = (st', r) ->
  (r = Ok () /\ events st' = events st ++ [Saved p]) \/
  (exists e, r = Raise e /\ events st' = events st).
Proof.
  unfold try_body.
  destruct (transcribe_file _ _ _ _ _) as [result|e];
    [|intros [= <- <-]; right; eauto].
  destruct (format_transcript _ _) as [content|e];
    [|intros [= <- <-]; right; eauto].
  destruct (save_transcription _ _ _) as [fs' [[]|e]];
    intros [= <- <-]; [by left|right; eauto].
Qed.

Lemma loop_body_frame args key total i f st st' r q :
  loop_body args key total i f st = (st', r) ->
  output_path (ext args) f <> Ok q ->
  files st' !! q = files st !! q.
Proof.
  unfold loop_body.
  destruct (output_path (ext args) f) as [p|e]; [|by intros [= <- _]].
  intros Hb Hq. assert (q <> p) as Hne by congruence.
  destruct (try_body _ _ _ _ _) as [st1 r1] eqn:Et.
  apply (try_body_frame _ _ _ _ _ _ _ q) in Et; [|done]. simpl in Et.
  destruct r1 as [[]|e].
  - injection Hb as <- _. done.
  - rewrite handler_error_line in Hb. injection Hb as <- _. done.
Qed.

Lemma for_enumerate_frame args key total i l st q :
  (forall f, In f l -> output_path (ext args) f <> Ok q) ->
  files (fst (for_enumerate (loop_body args key total) i l st)) !! q
    = files st !! q.
Proof.
  revert i st. induction l as [|x l IH]; intros i st Hq; simpl; [done|].
  destruct (loop_body args key total i x st) as [st1 r] eqn:Eb.
  apply (loop_body_frame _ _ _ _ _ _ _ _ q) in Eb; [|apply Hq; by left].
  destruct r as [[]|e]; [|done].
  rewrite IH; [done|]. intros f Hf. apply Hq. by right.
Qed.

(** One turn prints its progress line and exactly one closing line. *)
Lemma loop_body_log args key total i f st p :
  output_path (ext args) f = Ok p ->
  exists st' ev,
    loop_body args key total i f st = (st', Ok ()) /\
    result_event ev = true /\
    events st' = events st ++ [Transcribing i total f; ev].
Proof.
  intros Hp. rewrite (loop_body_eq _ _ _ _ _ _ p Hp).
  destruct (try_body _ _ _ _ _) as [st1 r] eqn:Et.
  apply try_body_events in Et as [[-> He]|(e & -> & He)]; simpl in He.
  - exists st1, (Saved p). rewrite He, <- app_assoc. done.
  - rewrite handler_error_line.
    exists (print (error_line f e) st1), (error_line f e).
    split; [done|]. split; [apply result_event_error_line|].
    simpl. rewrite He, <- app_assoc. done.
Qed.

Lemma for_enumerate_log args key total i l st :
  (forall x, In x l -> exists p, output_path (ext args) x = Ok p) ->
  exists st' closing,
    for_enumerate (loop_body args key total) i l st = (st', Ok ()) /\
    length closing = length l /\
    forallb result_event closing = true /\
    events st' = events st ++ transcript_log i total l closing.
Proof.
  revert i st. induction l as [|x l IH]; intros i st Hp; simpl.
  { exists st, []. by rewrite app_nil_r. }
  destruct (Hp x (or_introl eq_refl)) as [p Hx].
  destruct (loop_body_log args key total i x st p Hx)
    as (st1 & ev & -> & Hev & He1).
  destruct (IH (S i) st1) as (st' & closing & -> & Hlen & Hall & He).
  { intros y Hy. apply Hp. by right. }
  exists st', (ev :: closing). split; [done|]. split; [by simpl; rewrite Hlen|].
  split; [by simpl; rewrite Hev, Hall|].
  rewrite He, He1, <- app_assoc. done.
Qed.

(** With a key, an accepted extension and something to do, [main] runs the
    whole loop and ends normally. *)
Lemma main_finished args entries st :
  truthy_opt (api_key args) = true ->
  ext_ok (ext args) = true ->
  find_audio_files entries <> [] ->
  main args (Directory entries) st
    = (print TranscriptionComplete
         (after args (from_option id "" (api_key args))
            (length (find_audio_files entries)) 1 (find_audio_files entries)
            (print (Found (length (find_audio_files entries))) st)),
       Finished).
Proof.
  intros Hkey Hext Hne. unfold main, after. rewrite Hkey. simpl.
  destruct (for_enumerate_inv args (from_option id "" (api_key args))
              (length (find_audio_files entries)) 1
              (find_audio_files entries)
              (print (Found (length (find_audio_files entries))) st))
    as (st' & Hloop & _).
  { intros x Hx. by apply (discovered_output_path args entries). }
  destruct (find_audio_files entries) as [|a l] eqn:E; [done|].
  by rewrite Hloop.
Qed.

Lemma output_path_invalid ext name :
  ext_ok ext = false ->
  output_path ext name = Raise (ValueError "Invalid suffix").
Proof. intros He. by rewrite output_path_cases, He. Qed.

End Run.

(** X8: how a run ends depends on the options and the folder alone, never
    on what the service answers: exit code 1 without key or without a
    directory, exit code 0 when nothing is discovered, an uncaught
    [ValueError] when files are discovered and the extension is refused, and
    normal completion otherwise; in every case but the last the files are left
    as they were. *)
Theorem main_outcome `{Runtime} (args : Args) (folder : folder_state)
  (st : state) :
  snd (main args folder st) = expected_outcome args folder /\
  (expected_outcome args folder <> Finished ->
   files (fst (main args folder st)) = files st).
Proof.
  unfold expected_outcome.
  destruct (truthy_opt (api_key args)) eqn:Hkey; simpl.
  2:{ unfold main. by rewrite Hkey. }
  destruct folder as [| |entries]; try (unfold main; by rewrite Hkey).
  destruct (find_audio_files entries) as [|a l] eqn:E.
  { unfold main. by rewrite Hkey, E. }
  destruct (ext_ok (ext args)) eqn:Hext.
  - rewrite main_finished; [done..|by rewrite E].
  - unfold main. rewrite Hkey, E. simpl. unfold loop_body.
    by rewrite (output_path_invalid (ext args) a Hext).
Qed.

(** X9: a path that is the output path of no discovered file holds after
    the run what it held before. *)
Theorem main_writes_only_output_paths `{Runtime} (args : Args)
  (entries : list string) (st : state) (q : string) :
  (forall f, In f (find_audio_files entries) ->
             output_path (ext args) f <> Ok q) ->
  files (fst (main args (Directory entries) st)) !! q = files st !! q.
Proof.
  intros Hq. unfold main.
  destruct (negb (truthy_opt (api_key args))); [done|].
  destruct (find_audio_files entries) as [|a l] eqn:E; [done|].
  pose proof (for_enumerate_frame args (from_option id "" (api_key args))
                (length (a :: l)) 1 (a :: l)
                (print (Found (length (a :: l))) st) q Hq) as Hf.
  destruct (for_enumerate _ _ _ _) as [st' [[]|e]]; done.
Qed.

Lemma main_writes_only_output_paths_witness :
  files (fst (@main sample_runtime sample_args
                (Directory ["one.mp3"; "two.mp3"; "three.mp3"])
                (State sample_files []))) !! "one.mp3"
    = Some (File "t:first").
Proof.
  refine (@main_writes_only_output_paths sample_runtime sample_args
            ["one.mp3"; "two.mp3"; "three.mp3"] (State sample_files [])
            "one.mp3" _).
  intros f Hf. vm_compute in Hf.
  destruct Hf as [<-|[<-|[<-|[]]]]; vm_compute; discriminate.
Defined.

(** X10: when the upload or the formatting of a file raises, its turn
    writes nothing, prints its progress line and the line of the exception,
    and hands over to the next file. *)
Theorem failed_turn_writes_nothing `{Runtime} (args : Args) (key : string)
  (total i : nat) (f : string) (st : state) (p : string) (e : exn) :
  output_path (ext args) f = Ok p ->
  transcribe_file (files st) f key (lang args) (diarization args) = Raise e \/
  (exists result,
     transcribe_file (files st) f key (lang args) (diarization args)
       = Ok result /\
     format_transcript result (diarization args) = Raise e) ->
  loop_body args key total i f st
    = (State (files st)
         (events st ++ [Transcribing i total f; error_line f e]), Ok ()).
Proof.
  intros Hp Hfail. rewrite (loop_body_eq _ _ _ _ _ _ p Hp). unfold try_body.
  simpl.
  destruct Hfail as [Ht|(result & Ht & Hf)]; rewrite Ht; [|rewrite Hf];
    rewrite handler_error_line; unfold print; simpl;
    by rewrite <- app_assoc.
Qed.

Lemma failed_turn_writes_nothing_witness :
  @loop_body sample_runtime sample_args "key" 3 2 "two.mp3"
    (State sample_files [])
    = (State sample_files
         [Transcribing 2 3 "two.mp3"; ApiErrorLogged 401 "unauthorized"],
       Ok ()).
Proof.
  apply (@failed_turn_writes_nothing sample_runtime sample_args "key" 3 2
           "two.mp3" (State sample_files []) "two.txt"
           (HTTPError (Response 401 "unauthorized")));
    [reflexivity|left; reflexivity].
Defined.

(** X11: a run that reaches its loop prints the count of files, then for
    every discovered file, in discovery order and numbered from 1, its
    progress line followed by exactly one closing line (saved, API error or
    error), then the completion line. *)
Theorem main_log `{Runtime} (args : Args) (entries : list string)
  (st : state) :
  truthy_opt (api_key args) = true ->
  ext_ok (ext args) = true ->
  find_audio_files entries <> [] ->
  exists closing,
    length closing = length (find_audio_files entries) /\
    forallb result_event closing = true /\
    events (fst (main args (Directory entries) st))
      = events st
          ++ Found (length (find_audio_files entries))
          :: transcript_log 1 (length (find_audio_files entries))
               (find_audio_files entries) closing
          ++ [TranscriptionComplete].
Proof.
  intros Hkey Hext Hne. rewrite main_finished by done. unfold after.
  destruct (for_enumerate_log args (from_option id "" (api_key args))
              (length (find_audio_files entries)) 1
              (find_audio_files entries)
              (print (Found (length (find_audio_files entries))) st))
    as (st' & closing & -> & Hlen & Hall & He).
  { intros x Hx. by apply (discovered_output_path args entries). }
  exists closing. split; [done|]. split; [done|].
  simpl. rewrite He. simpl. by rewrite <- !app_assoc.
Qed.

Lemma main_log_witness :
  exists closing,
    length closing = 3 /\
    forallb result_event closing = true /\
    events (fst (@main sample_runtime sample_args
                   (Directory ["one.mp3"; "two.mp3"; "three.mp3"])
                   (State sample_files [])))
      = Found 3
        :: transcript_log 1 3 ["one.mp3"; "two.mp3"; "three.mp3"] closing
        ++ [TranscriptionComplete].
Proof.
  apply (@main_log sample_runtime sample_args
           ["one.mp3"; "two.mp3"; "three.mp3"] (State sample_files []));
    [reflexivity|reflexivity|vm_compute; discriminate].
Defined.

(** X5: when the configured extension is the extension of the source file
    itself, the output path is the source path, and a successful turn replaces
    the source by its own transcript. *)
Theorem same_extension_overwrites_source `{Runtime} (args : Args)
  (key : string) (total i : nat) (s : string) (st : state) :
  nonempty s = true ->
  ext_ok (ext args) = true ->
  rfind "." (lstrip_char "." (ext args)) = (-1)%Z ->
  output_path (ext args) (s +:+ "." +:+ lstrip_char "." (ext args))
    = Ok (s +:+ "." +:+ lstrip_char "." (ext args)) /\
  (forall result content,
     transcribe_file (files st) (s +:+ "." +:+ lstrip_char "." (ext args)) key
       (lang args) (diarization args) = Ok result ->
     format_transcript result (diarization args) = Ok content ->
     files (fst (loop_body args key total i
                   (s +:+ "." +:+ lstrip_char "." (ext args)) st))
       !! (s +:+ "." +:+ lstrip_char "." (ext args))
       = Some (File content)).
Proof.
  intros Hs Hext Hd.
  assert (output_path (ext args) (s +:+ "." +:+ lstrip_char "." (ext args))
          = Ok (s +:+ "." +:+ lstrip_char "." (ext args))) as Hp.
  { rewrite output_path_cases, Hext.
    pose proof Hext as [Hb _]%andb_true_iff.
    change ("." +:+ lstrip_char "." (ext args))
      with (String "." (lstrip_char "." (ext args))).
    rewrite (proj2 (suffix_append s (lstrip_char "." (ext args)) Hs Hb Hd)).
    assert (nonempty (s +:+ String "." (lstrip_char "." (ext args))) = true)
      as ->; [|done].
    apply nonempty_length. rewrite length_append.
    apply nonempty_length in Hs. lia. }
  split; [done|].
  intros result content Ht Hf.
  rewrite (loop_body_saved args key total i _ st _ result content Hp Ht Hf).
  - simpl. apply lookup_insert_eq.
  - by apply transcribe_file_reads_file in Ht.
Qed.

Lemma same_extension_overwrites_source_witness :
  let args :=
    {| lang := None; diarization := false; ext := "mp3";
       api_key := Some "key" |} in
  output_path "mp3" "a.mp3" = Ok "a.mp3" /\
  files (fst (@loop_body sample_runtime args "key" 1 1 "a.mp3"
                (State sample_files []))) !! "a.mp3"
    = Some (File "from mp3").
Proof.
  intros args.
  destruct (@same_extension_overwrites_source sample_runtime args "key" 1 1
              "a" (State sample_files []) eq_refl eq_refl eq_refl)
    as [Hp Hrun].
  split; [exact Hp|].
  exact (Hrun (transcript_result "from mp3") "from mp3" eq_refl eq_refl).
Defined.

(** X16: the artifact of a file processed successfully is still on disk,
    unchanged, when the run ends, provided no file discovered after it has
    the same output path. *)
Theorem artifact_survives `{Runtime} (args : Args) (entries : list string)
  (st : state) (before : list string) (f : string) (rest : list string)
  (p : string) (result : json) (content : string) :
  truthy_opt (api_key args) = true ->
  find_audio_files entries = before ++ f :: rest ->
  output_path (ext args) f = Ok p ->
  (forall g, In g rest -> output_path (ext args) g <> Ok p) ->
  let key := from_option id "" (api_key args) in
  let total := length (find_audio_files entries) in
  let st1 := after args key total 1 before (print (Found total) st) in
  transcribe_file (files st1) f key (lang args) (diarization args)
    = Ok result ->
  format_transcript result (diarization args) = Ok content ->
  files st1 !! p <> Some Dir ->
  files (fst (main args (Directory entries) st)) !! p = Some (File content).
Proof.
  intros Hkey Hfind Hp Hrest key total st1 Ht Hf Hd.
  pose proof (output_path_inv _ _ _ Hp) as (Hext & _ & _).
  assert (forall x, In x (before ++ [f]) ->
                    exists q, output_path (ext args) x = Ok q) as Hpre.
  { intros x Hx. apply (discovered_output_path args entries); [done|].
    rewrite Hfind. apply in_app_or in Hx as [Hx|[<-|[]]]; apply in_or_app;
      [by left|right; by left]. }
  rewrite main_finished; [|done..|rewrite Hfind; by destruct before].
  fold total. fold key. simpl.
  replace (find_audio_files entries) with ((before ++ [f]) ++ rest)
    by (by rewrite Hfind, <- app_assoc).
  rewrite after_app by done.
  unfold after at 1. rewrite for_enumerate_frame by done.
  rewrite after_app by (intros x Hx; apply Hpre, in_or_app; by left).
  unfold after at 1. simpl. fold st1.
  pose proof (loop_body_saved args key total (1 + length before) f st1 p
                result content Hp Ht Hf Hd) as Hstep.
  simpl in Hstep. rewrite Hstep. simpl. apply lookup_insert_eq.
Qed.

Lemma artifact_survives_witness :
  files (fst (@main sample_runtime sample_args
                (Directory ["one.mp3"; "two.mp3"; "three.mp3"])
                (State sample_files []))) !! "one.txt"
    = Some (File "first").
Proof.
  refine (@artifact_survives sample_runtime sample_args
            ["one.mp3"; "two.mp3"; "three.mp3"] (State sample_files [])
            [] "one.mp3" ["two.mp3"; "three.mp3"] "one.txt"
            (transcript_result "first") "first"
            eq_refl eq_refl eq_refl _ eq_refl eq_refl _).
  - intros g [<-|[<-|[]]]; vm_compute; discriminate.
  - vm_compute. discriminate.
Defined.
